(** * speakturbo: streaming audio delivery

    A shallow embedding of [speakturbo/daemon.py] and
    [speakturbo/raw_server.py], and the properties of the container
    encoder, the voice-state cache, the two HTTP handlers and the raw
    socket handler.

    Conventions.
    - A Python [str] is a list of Unicode code points ([list N]).
    - A Python [bytes] is a [list byte].
    - A Python [int] is a [Z]; [struct.pack] raises [struct.error] when a
      field is out of range, which is modelled by [None].
    - A torch tensor of samples is a list of IEEE-754 values
      ([spec_float], the specification of floating point of the
      standard library), in binary32.
    - The synthesis engine ([pocket_tts.TTSModel]) is an external
      collaborator: a record of functions, a section variable. *)

From Stdlib Require Import ZArith NArith List Lia Bool.
From Stdlib.Strings Require Import String Ascii Byte.
From Stdlib Require Import Floats.SpecFloat.
From stdpp Require Import base option list gmap.

Local Open Scope Z_scope.

(** ** Bytes and [struct.pack] *)

Abbreviation bytes := (list byte).

Definition byte_of_Z (z : Z) : byte :=
  match Byte.of_N (Z.to_N (z mod 256)) with
  | Some b => b
  | None => x00
  end.

Definition Z_of_byte (b : byte) : Z := Z.of_N (Byte.to_N b).

(** [n] little-endian bytes of [v], least significant first. *)
Fixpoint le_bytes (n : nat) (v : Z) : bytes :=
  match n with
  | O => []
  | S k => byte_of_Z v :: le_bytes k (v / 256)
  end.

(** The unsigned integer a little-endian byte string denotes. *)
Fixpoint le_value (b : bytes) : Z :=
  match b with
  | [] => 0
  | x :: r => Z_of_byte x + 256 * le_value r
  end.

(** [struct.pack('<I', v)]: [struct.error] unless [0 <= v <= 0xFFFFFFFF]. *)
Definition pack_I (v : Z) : option bytes :=
  if (0 <=? v) && (v <=? 4294967295) then Some (le_bytes 4 v) else None.

(** [struct.pack('<H', v)]: [struct.error] unless [0 <= v <= 0xFFFF]. *)
Definition pack_H (v : Z) : option bytes :=
  if (0 <=? v) && (v <=? 65535) then Some (le_bytes 2 v) else None.

(** [struct.pack('<4s', tag)] for a 4-byte tag. *)
Definition tag (s : string) : bytes := list_byte_of_string s.

(** The format ['<4sI4s4sIHHIIHH4sI'] applied to its thirteen arguments. *)
Definition pack_wav_header
    (riff : bytes) (file_size : Z) (wave fmt : bytes)
    (fmt_size format channels rate byte_rate block_align bits : Z)
    (data : bytes) (data_size : Z) : option bytes :=
  f1 ← pack_I file_size;
  f2 ← pack_I fmt_size;
  f3 ← pack_H format;
  f4 ← pack_H channels;
  f5 ← pack_I rate;
  f6 ← pack_I byte_rate;
  f7 ← pack_H block_align;
  f8 ← pack_H bits;
  f9 ← pack_I data_size;
  Some (riff ++ f1 ++ wave ++ fmt ++ f2 ++ f3 ++ f4 ++ f5 ++ f6 ++ f7 ++ f8
          ++ data ++ f9).

(** ** The streaming container header *)

Module Daemon.

(** [daemon.make_wav_header(sample_rate, num_channels=1, bits_per_sample=16)] *)
Definition make_wav_header
    (sample_rate : Z) (num_channels : Z) (bits_per_sample : Z) : option bytes :=
  let byte_rate := sample_rate * num_channels * bits_per_sample / 8 in
  let block_align := num_channels * bits_per_sample / 8 in
  let data_size := 0x7FFFFFFF in
  let file_size := data_size + 36 in
  pack_wav_header (tag "RIFF") file_size (tag "WAVE") (tag "fmt ")
    16 1 num_channels sample_rate byte_rate block_align bits_per_sample
    (tag "data") data_size.

End Daemon.

Module Raw.

(** [raw_server.make_wav_header(sample_rate)] *)
Definition make_wav_header (sample_rate : Z) : option bytes :=
  let byte_rate := sample_rate * 2 in
  let data_size := 0x7FFFFFFF in
  let file_size := data_size + 36 in
  pack_wav_header (tag "RIFF") file_size (tag "WAVE") (tag "fmt ")
    16 1 1 sample_rate byte_rate 2 16 (tag "data") data_size.

End Raw.

(** Reading a header back: the field of [n] bytes at offset [off]. *)
Definition field (b : bytes) (off n : nat) : bytes := take n (drop off b).
Definition u32_at (b : bytes) (off : nat) : Z := le_value (field b off 4).
Definition u16_at (b : bytes) (off : nat) : Z := le_value (field b off 2).

(** The 44-byte layout of a streaming header for [channels] channels
    of 16-bit samples at [rate] Hz, as a reader of the bytes sees it. *)
Definition streaming_layout (h : bytes) (channels rate : Z) : Prop :=
  length h = 44%nat
  /\ field h 0 4 = tag "RIFF"
  /\ u32_at h 4 = 0x7FFFFFFF + 36
  /\ field h 8 4 = tag "WAVE"
  /\ field h 12 4 = tag "fmt "
  /\ u32_at h 16 = 16
  /\ u16_at h 20 = 1
  /\ u16_at h 22 = channels
  /\ u32_at h 24 = rate
  /\ u32_at h 28 = rate * channels * 16 / 8
  /\ u16_at h 32 = channels * 16 / 8
  /\ u16_at h 34 = 16
  /\ field h 36 4 = tag "data"
  /\ u32_at h 40 = 0x7FFFFFFF.

(** ** Python strings *)

Abbreviation str := (list N).

(** A string literal of the source, as code points. *)
Definition py (s : string) : str := map N_of_ascii (list_ascii_of_string s).

(** [str.isspace] on one character: the code points Python treats as
    white space, which are those [str.strip()] removes. *)
Definition is_space (c : N) : bool :=
  ((9 <=? c) && (c <=? 13) || (28 <=? c) && (c <=? 32)
   || (c =? 133) || (c =? 160) || (c =? 5760)
   || (8192 <=? c) && (c <=? 8202)
   || (c =? 8232) || (c =? 8233) || (c =? 8239) || (c =? 8287)
   || (c =? 12288))%N.

Fixpoint lstrip (s : str) : str :=
  match s with
  | c :: r => if is_space c then lstrip r else s
  | [] => []
  end.

Definition rstrip (s : str) : str := rev (lstrip (rev s)).

(** [s.strip()] *)
Definition strip (s : str) : str := rstrip (lstrip s).

(** [s.split('\n')]: never the empty list. *)
Fixpoint split_nl (s : str) : list str :=
  match s with
  | [] => [[]]
  | c :: r =>
      if (c =? 10)%N then [] :: split_nl r
      else match split_nl r with
           | h :: t => (c :: h) :: t
           | [] => [[c]]
           end
  end.

(** [repr] of a list of plain strings, as an f-string prints it. *)
Fixpoint join (sep : str) (l : list str) : str :=
  match l with
  | [] => []
  | [x] => x
  | x :: r => x ++ sep ++ join sep r
  end.

Definition repr_str (s : str) : str := py "'" ++ s ++ py "'".
Definition repr_list (l : list str) : str :=
  py "[" ++ join (py ", ") (map repr_str l) ++ py "]".

(** [b.decode('utf-8')], strict: [None] is [UnicodeDecodeError]. *)
Definition is_cont (c : N) : bool := ((128 <=? c) && (c <=? 191))%N.
Definition cont_bits (c : N) : N := (c - 128)%N.

Fixpoint utf8_decode_N (b : list N) : option str :=
  match b with
  | [] => Some []
  | b0 :: r0 =>
      if (b0 <? 128)%N then cons b0 <$> utf8_decode_N r0
      else if ((194 <=? b0) && (b0 <=? 223))%N then
        match r0 with
        | b1 :: r1 =>
            if is_cont b1
            then cons ((b0 - 192) * 64 + cont_bits b1)%N <$> utf8_decode_N r1
            else None
        | _ => None
        end
      else if ((224 <=? b0) && (b0 <=? 239))%N then
        match r0 with
        | b1 :: b2 :: r2 =>
            if is_cont b1 && is_cont b2
               && negb ((b0 =? 224) && (b1 <? 160))%N
               && negb ((b0 =? 237) && (160 <=? b1))%N
            then cons ((b0 - 224) * 4096 + cont_bits b1 * 64 + cont_bits b2)%N
                   <$> utf8_decode_N r2
            else None
        | _ => None
        end
      else if ((240 <=? b0) && (b0 <=? 244))%N then
        match r0 with
        | b1 :: b2 :: b3 :: r3 =>
            if is_cont b1 && is_cont b2 && is_cont b3
               && negb ((b0 =? 240) && (b1 <? 144))%N
               && negb ((b0 =? 244) && (144 <=? b1))%N
            then cons ((b0 - 240) * 262144 + cont_bits b1 * 4096
                       + cont_bits b2 * 64 + cont_bits b3)%N
                   <$> utf8_decode_N r3
            else None
        | _ => None
        end
      else None
  end.

Definition utf8_decode (b : bytes) : option str :=
  utf8_decode_N (map Byte.to_N b).

(** ** Floating point

    Samples are binary32 values; Python floats are binary64. *)

Abbreviation float := spec_float.

Definition f32_of_Z (z : Z) : float := binary_normalize 24 128 z 0 false.
Definition f32_mul : float -> float -> float := SFmul 24 128.
Definition f32_valid : float -> bool := valid_binary 24 128.

Definition f64_of_Z (z : Z) : float := binary_normalize 53 1024 z 0 false.
Definition f64_mul : float -> float -> float := SFmul 53 1024.

(** The literal [0.2]: the binary64 value nearest to one fifth. *)
Definition f64_0_2 : float := S754_finite false 7205759403792794 (-55).

(** Truncation toward zero of a finite value; [None] for an infinity
    or a NaN. *)
Definition trunc (x : float) : option Z :=
  match x with
  | S754_zero _ => Some 0
  | S754_finite s m e =>
      let a := Z.shiftl (Zpos m) e in Some (if s then - a else a)
  | S754_infinity _ | S754_nan => None
  end.

(** [tensor.clamp(lo, hi)] on one element; a NaN stays a NaN. *)
Definition clamp (lo hi x : float) : float :=
  if SFltb x lo then lo else if SFltb hi x then hi else x.

Definition is_nan (x : float) : bool :=
  match x with S754_nan => true | _ => false end.

Definition in_int16 (z : Z) : bool := (-32768 <=? z) && (z <=? 32767).
Definition int16_wrap (z : Z) : Z := (z + 32768) mod 65536 - 32768.

(** [int(x)] for a Python float: [OverflowError] on an infinity and
    [ValueError] on a NaN. *)
Definition py_int : float -> option Z := trunc.

(** [int(sample_rate * 0.2)]: the int is converted to a float
    ([OverflowError] when it does not fit), multiplied and truncated. *)
Definition silence_samples (sample_rate : Z) : option Z :=
  match f64_of_Z sample_rate with
  | S754_infinity _ => None
  | x => py_int (f64_mul x f64_0_2)
  end.

(** [bytes(n)]: [n] zero bytes, [ValueError] when [n] is negative. *)
Definition py_bytes (n : Z) : option bytes :=
  if 0 <=? n then Some (replicate (Z.to_nat n) x00) else None.

(** The trailing silence: [bytes(int(sample_rate * 0.2) * 2)]. *)
Definition silence_block (sample_rate : Z) : option bytes :=
  n ← silence_samples sample_rate; py_bytes (n * 2).

(** ** The synthesis engine and the process state *)

Abbreviation frame := (list float).

(** [pocket_tts.TTSModel], as far as the two servers use it. The lazy
    sequence [generate_audio_stream] returns is the list of the frames
    it will yield; pulling them is recorded by [EvPull]. *)
Record TTSModel (VoiceState : Type) := {
  sample_rate : Z;
  get_state_for_audio_prompt : str -> VoiceState;
  generate_audio_stream : VoiceState -> str -> list frame
}.
Arguments sample_rate {VoiceState} _.
Arguments get_state_for_audio_prompt {VoiceState} _ _.
Arguments generate_audio_stream {VoiceState} _ _ _.

(** What the process does to its collaborators, in order. *)
Inductive event :=
| EvLoad                       (* TTSModel.load_model() *)
| EvCondition (voice : str)    (* model.get_state_for_audio_prompt(voice) *)
| EvGenerate (text : str)      (* model.generate_audio_stream(state, text) *)
| EvPull                       (* next() on the engine's lazy sequence *)
| EvSend (chunk : bytes).      (* bytes handed to the client connection *)

#[global] Instance byte_eq_dec : EqDecision byte := Byte.byte_eq_dec.
#[global] Instance event_eq_dec : EqDecision event.
Proof. solve_decision. Defined.

Inductive exn :=
| HTTPException (status_code : Z) (detail : str)
| PyError (name : string)
| OutOfFuel.

Inductive result (A : Type) :=
| Ok (a : A)
| Raise (e : exn).
Arguments Ok {A} _.
Arguments Raise {A} _.

(** [daemon.VOICES] *)
Definition VOICES : list str :=
  map py ["alba"; "marius"; "javert"; "jean"; "fantine"; "cosette";
          "eponine"; "azelma"]%string.

Definition count_loads (l : list event) : nat :=
  length (filter (λ e, e = EvLoad) l).
Definition count_condition (voice : str) (l : list event) : nat :=
  length (filter (λ e, e = EvCondition voice) l).
Arguments count_loads : simpl never.
Arguments count_condition : simpl never.

Definition sent (l : list event) : list bytes :=
  omap (λ e, match e with EvSend b => Some b | _ => None end) l.

(** An engine to run the servers on: 24 kHz, a voice's state is its
    name, and a text yields one two-sample frame per character, the
    second sample far out of range. *)
Definition demo_half : float := S754_finite false 8388608 (-24).
Definition demo_loud : float := S754_finite true 12582912 (-20).
Definition demo_model : TTSModel str :=
  {| sample_rate := 24000;
     get_state_for_audio_prompt := λ voice, voice;
     generate_audio_stream := λ _ text, map (λ _, [demo_half; demo_loud]) text |}.
Definition demo_cast (x : float) : Z := 0.

Section Engine.

Context {VoiceState : Type}.
(** The engine every [load_model] returns. *)
Variable model : TTSModel VoiceState.
(** What the platform's float-to-int16 cast gives where C leaves it
    undefined (a NaN, an infinity, a value out of range). *)
Variable cast_ub : float -> Z.

(** *** Frame encoding *)

(** [t.short()] on one element: truncation toward zero. *)
Definition short (x : float) : Z :=
  match trunc x with
  | Some z => if in_int16 z then z else int16_wrap (cast_ub x)
  | None => int16_wrap (cast_ub x)
  end.

(** [(t.clamp(-1, 1) * 32767).short()] *)
Definition scale (x : float) : float :=
  f32_mul (clamp (f32_of_Z (-1)) (f32_of_Z 1) x) (f32_of_Z 32767).
Definition to_int16 (t : frame) : list Z := map (λ x, short (scale x)) t.

(** [a.numpy().tobytes()] of an int16 array, on a little-endian host. *)
Definition tobytes (a : list Z) : bytes := flat_map (le_bytes 2) a.

(** [daemon.pcm_from_chunk] *)
Definition pcm_from_chunk (chunk : frame) : bytes :=
  let chunk_int16 := to_int16 chunk in
  tobytes chunk_int16.

(** *** Process state and its monad *)

(** The module globals of [daemon.py], and the log of what was done.
    An engine reference is the number of the load that made it. *)
Record World := {
  _model : option nat;
  _voice_states : gmap str VoiceState;
  log : list event
}.

Definition M (A : Type) : Type := World -> result A * World.

Definition ret {A} (a : A) : M A := λ w, (Ok a, w).
Definition raise {A} (e : exn) : M A := λ w, (Raise e, w).
Definition bind {A B} (m : M A) (k : A -> M B) : M B :=
  λ w, match m w with
       | (Ok a, w') => k a w'
       | (Raise e, w') => (Raise e, w')
       end.
Definition emit (e : event) : M unit :=
  λ w, (Ok tt, {| _model := _model w; _voice_states := _voice_states w;
                  log := log w ++ [e] |}).
Definition try_py {A} (name : string) (o : option A) : M A :=
  match o with Some a => ret a | None => raise (PyError name) end.

Notation "'let*' x ':=' m 'in' k" := (bind m (λ x, k))
  (at level 10, x pattern, m at level 100, k at level 200).
Notation "m ;;; k" := (bind m (λ _, k))
  (at level 100, k at level 200, right associativity).

Definition init : World :=
  {| _model := None; _voice_states := ∅; log := [] |}.

(** *** Engine handle and voice-state cache *)

(** [daemon.get_model] *)
Definition get_model : M nat :=
  λ w, match _model w with
       | None =>
           let m := count_loads (log w) in
           (Ok m, {| _model := Some m; _voice_states := _voice_states w;
                     log := log w ++ [EvLoad] |})
       | Some m => (Ok m, w)
       end.

Definition store_voice_state (voice : str) (s : VoiceState) : M unit :=
  λ w, (Ok tt, {| _model := _model w;
                  _voice_states := <[voice := s]> (_voice_states w);
                  log := log w |}).

Definition load_voice_state (voice : str) : M VoiceState :=
  λ w, match _voice_states w !! voice with
       | Some s => (Ok s, w)
       | None => (Raise (PyError "KeyError"), w)
       end.

Definition voice_cached (voice : str) : M bool :=
  λ w, (Ok (bool_decide (is_Some (_voice_states w !! voice))), w).

(** [daemon.get_voice_state] *)
Definition get_voice_state (voice : str) : M VoiceState :=
  let* cached := voice_cached voice in
  (if negb cached then
     let* _ := get_model in
     emit (EvCondition voice) ;;;
     store_voice_state voice (get_state_for_audio_prompt model voice)
   else ret tt) ;;;
  load_voice_state voice.

(** *** Streaming responses *)

(** Where a [generate_streaming_wav] generator is suspended. *)
Inductive gen_pc :=
| GenHeader     (* created, nothing yielded yet *)
| GenChunks     (* in the loop over [audio_chunks] *)
| GenSilence    (* the silence has been yielded *)
| GenDone.

(** A generator object of [daemon.generate_streaming_wav]: its
    arguments and where it stands; [audio_chunks] holds the frames
    the engine has not been asked for yet. *)
Record generator := {
  pc : gen_pc;
  audio_chunks : list frame;
  gen_sample_rate : Z
}.

(** [daemon.generate_streaming_wav(audio_chunks, sample_rate)]:
    calling it only creates the generator. *)
Definition generate_streaming_wav
    (audio_chunks : list frame) (sample_rate : Z) : generator :=
  {| pc := GenHeader; audio_chunks := audio_chunks;
     gen_sample_rate := sample_rate |}.

Definition gen_at (p : gen_pc) (chunks : list frame) (g : generator)
    : generator :=
  {| pc := p; audio_chunks := chunks; gen_sample_rate := gen_sample_rate g |}.

(** [next(g)]: run the generator to its next [yield]; [None] is
    [StopIteration]. *)
Definition gen_next (g : generator) : M (option bytes * generator) :=
  match pc g with
  | GenHeader =>
      let* h := try_py "struct.error"
                  (Daemon.make_wav_header (gen_sample_rate g) 1 16) in
      ret (Some h, gen_at GenChunks (audio_chunks g) g)
  | GenChunks =>
      emit EvPull ;;;
      match audio_chunks g with
      | chunk :: rest =>
          ret (Some (pcm_from_chunk chunk), gen_at GenChunks rest g)
      | [] =>
          let* silence_samples :=
            try_py "OverflowError" (silence_samples (gen_sample_rate g)) in
          let* silence :=
            try_py "ValueError" (py_bytes (silence_samples * 2)) in
          ret (Some silence, gen_at GenSilence [] g)
      end
  | GenSilence => ret (None, gen_at GenDone [] g)
  | GenDone => ret (None, g)
  end.

(** The body of a response: a generator, or [iter([b1, ...])]. *)
Inductive body_iterator :=
| BodyGen (g : generator)
| BodyList (chunks : list bytes).

Definition body_next (b : body_iterator) : M (option bytes * body_iterator) :=
  match b with
  | BodyGen g => let* (c, g') := gen_next g in ret (c, BodyGen g')
  | BodyList (c :: r) => ret (Some c, BodyList r)
  | BodyList [] => ret (None, BodyList [])
  end.

Record StreamingResponse := {
  body : body_iterator;
  media_type : str;
  headers : list (str * str)
}.

(** What the framework does with a [StreamingResponse]: it sends
    each chunk of the body as soon as the iterator yields it. *)
Fixpoint stream_response (fuel : nat) (b : body_iterator) : M unit :=
  match fuel with
  | O => raise OutOfFuel
  | S fuel' =>
      let* (c, b') := body_next b in
      match c with
      | Some chunk => emit (EvSend chunk) ;;; stream_response fuel' b'
      | None => ret tt
      end
  end.

(** *** The HTTP handlers *)

Definition is_empty (s : str) : bool :=
  match s with [] => true | _ => false end.

Definition invalid_voice_detail (voice : str) : str :=
  py "Invalid voice '" ++ voice ++ py "'. Available: " ++ repr_list VOICES.

(** The two checks at the head of both handlers. *)
Definition validate (text voice : str) : M unit :=
  if is_empty text || is_empty (strip text) then
    raise (HTTPException 400 (py "Text cannot be empty"))
  else if negb (bool_decide (voice ∈ VOICES)) then
    raise (HTTPException 400 (invalid_voice_detail voice))
  else ret tt.

(** [str(n)] for an int. *)
Definition py_str_Z (n : Z) : str := py (pretty.pretty n).

(** [daemon.text_to_speech], the handler of [POST /tts] *)
Definition text_to_speech (text voice : str) : M StreamingResponse :=
  validate text voice ;;;
  let* _ := get_model in
  let* voice_state := get_voice_state voice in
  emit (EvGenerate (strip text)) ;;;
  let audio_chunks := generate_audio_stream model voice_state (strip text) in
  ret {| body := BodyGen
                   (generate_streaming_wav audio_chunks (sample_rate model));
         media_type := py "audio/wav";
         headers :=
           [(py "Content-Disposition", py "attachment; filename=speech.wav");
            (py "X-Sample-Rate", py_str_Z (sample_rate model));
            (py "X-Streaming", py "true")] |}.

(** [wave.open(buffer, 'wb')] with [setnchannels], [setsampwidth],
    [setframerate] and one [writeframes(data)], then [close]: the
    bytes the standard [wave] module leaves in the buffer. *)
Definition wave_write (nchannels sampwidth framerate : Z) (data : bytes)
    : option bytes :=
  if framerate <=? 0 then None
  else
    let datalength := Z.of_nat (length data) in
    h ← pack_wav_header (tag "RIFF") (36 + datalength) (tag "WAVE")
          (tag "fmt ") 16 1 nchannels framerate
          (nchannels * framerate * sampwidth) (nchannels * sampwidth)
          (sampwidth * 8) (tag "data") datalength;
    Some (h ++ data).

(** [list(it)] on the engine's lazy sequence: every frame is pulled,
    and once more to find the end. *)
Fixpoint drain (it : list frame) : M (list frame) :=
  emit EvPull ;;;
  match it with
  | [] => ret []
  | chunk :: rest => let* l := drain rest in ret (chunk :: l)
  end.

(** [daemon.text_to_speech_buffered], the handler of [POST /tts/buffered] *)
Definition text_to_speech_buffered (text voice : str) : M StreamingResponse :=
  validate text voice ;;;
  let* _ := get_model in
  let* voice_state := get_voice_state voice in
  emit (EvGenerate (strip text)) ;;;
  let* audio_chunks :=
    drain (generate_audio_stream model voice_state (strip text)) in
  if bool_decide (audio_chunks = []) then
    raise (HTTPException 500 (py "No audio generated"))
  else
    let audio := concat audio_chunks in
    let audio_int16 := to_int16 audio in
    let* value := try_py "wave.Error"
                    (wave_write 1 2 (sample_rate model) (tobytes audio_int16)) in
    ret {| body := BodyList [value];
           media_type := py "audio/wav";
           headers := [] |}.

(** A request served from the handler to the last byte. *)
Definition serve_tts (fuel : nat) (text voice : str) : M unit :=
  let* r := text_to_speech text voice in stream_response fuel (body r).
Definition serve_tts_buffered (fuel : nat) (text voice : str) : M unit :=
  let* r := text_to_speech_buffered text voice in stream_response fuel (body r).

(** [daemon.run_server], up to the start of the HTTP server. *)
Definition run_server : M unit :=
  let* _ := get_model in
  let* _ := get_voice_state (py "alba") in
  ret tt.

(** Requests handled one after the other by one process. *)
Inductive request :=
| ReqModel
| ReqVoiceState (voice : str)
| ReqTTS (fuel : nat) (text voice : str)
| ReqBuffered (fuel : nat) (text voice : str)
| ReqRunServer.

Definition do_request (r : request) : M unit :=
  match r with
  | ReqModel => let* _ := get_model in ret tt
  | ReqVoiceState voice => let* _ := get_voice_state voice in ret tt
  | ReqTTS fuel text voice => serve_tts fuel text voice
  | ReqBuffered fuel text voice => serve_tts_buffered fuel text voice
  | ReqRunServer => run_server
  end.

(** An exception ends a request, not the process. *)
Fixpoint run_requests (rs : list request) (w : World) : World :=
  match rs with
  | [] => w
  | r :: rs' => run_requests rs' (snd (do_request r w))
  end.

(** *** The raw socket server *)

(** The loop of [handle_client] over the engine's lazy sequence:
    each frame is pulled, encoded and sent before the next one. *)
Fixpoint send_chunks (it : list frame) : list event :=
  match it with
  | [] => [EvPull]
  | chunk :: rest =>
      let pcm := tobytes (to_int16 chunk) in
      EvPull :: EvSend pcm :: send_chunks rest
  end.

(** The request [handle_client] reads: voice and text. *)
Definition parse_request (data : str) : str * str :=
  let lines := split_nl (strip data) in
  let voice := if (0 <? length lines)%nat
               then nth 0 lines [] else py "alba" in
  let text := if (1 <? length lines)%nat
              then nth 1 lines [] else py "Hello world" in
  (voice, text).

(** [raw_server.handle_client(conn, model, voice_states)], with
    [data] the bytes [conn.recv(4096)] returned. The result is the
    dictionary afterwards, what was done, and whether the handler
    reached its end without an exception. *)
Definition handle_client (data : bytes) (voice_states : gmap str VoiceState)
    : gmap str VoiceState * list event * bool :=
  match utf8_decode data with
  | None => (voice_states, [], false)
  | Some data =>
      let '(voice, text) := parse_request data in
      let '(voice_states, ev) :=
        match voice_states !! voice with
        | None =>
            (<[voice := get_state_for_audio_prompt model voice]> voice_states,
             [EvCondition voice])
        | Some _ => (voice_states, [])
        end in
      match voice_states !! voice with
      | None => (voice_states, ev, false)
      | Some voice_state =>
          match Raw.make_wav_header (sample_rate model) with
          | None => (voice_states, ev, false)
          | Some header =>
              let ev := ev ++ [EvSend header] ++ [EvGenerate text]
                        ++ send_chunks
                             (generate_audio_stream model voice_state text) in
              match n ← silence_samples (sample_rate model);
                    py_bytes (n * 2) with
              | None => (voice_states, ev, false)
              | Some silence => (voice_states, ev ++ [EvSend silence], true)
              end
          end
      end
  end.

(** [raw_server.main]: the model and the default voice are loaded,
    then the connections are served one at a time. *)
Fixpoint accept_loop (conns : list bytes)
    (voice_states : gmap str VoiceState) (ev : list event)
    : gmap str VoiceState * list event :=
  match conns with
  | [] => (voice_states, ev)
  | data :: rest =>
      let '(voice_states', ev', _) := handle_client data voice_states in
      accept_loop rest voice_states' (ev ++ ev')
  end.

Definition main (conns : list bytes) : gmap str VoiceState * list event :=
  let voice_states :=
    {[ py "alba" := get_state_for_audio_prompt model (py "alba") ]} in
  accept_loop conns voice_states [EvLoad; EvCondition (py "alba")].

(** *** [get_model] under threads

    The HTTP framework runs the handlers on a pool of threads. The
    body of [get_model] is then four steps, between which another
    thread may run: the test of [_model], the load, the store to
    [_model], and the read that is returned. *)
Inductive thread :=
| TCheck                  (* about to test [_model is None] *)
| TLoad                   (* the test found [None]; about to load *)
| TStore (m : nat)        (* [load_model] returned [m]; about to store *)
| TReturn                 (* about to read [_model] and return it *)
| TDone (r : option nat). (* returned [r] *)

Record pool := {
  shared_model : option nat;   (* the global [_model] *)
  loads : nat;                 (* the loads executed so far *)
  threads : list thread
}.

(** One step of one thread on the shared state. *)
Definition thread_step (t : thread) (g : option nat) (n : nat)
    : thread * option nat * nat :=
  match t with
  | TCheck => (match g with None => TLoad | Some _ => TReturn end, g, n)
  | TLoad => (TStore n, g, S n)
  | TStore m => (TReturn, Some m, n)
  | TReturn => (TDone g, g, n)
  | TDone r => (TDone r, g, n)
  end.

(** Thread [i] takes a step; nothing happens when there is none. *)
Definition pool_step (i : nat) (p : pool) : pool :=
  match threads p !! i with
  | Some t =>
      let '(t', g, n) := thread_step t (shared_model p) (loads p) in
      {| shared_model := g; loads := n; threads := <[i := t']> (threads p) |}
  | None => p
  end.

(** A schedule names the thread that runs at each step. *)
Definition run_schedule (sched : list nat) (p : pool) : pool :=
  foldl (λ p i, pool_step i p) p sched.

(** [k] callers arrive while [_model] is [g]. *)
Definition callers (k : nat) (g : option nat) (n : nat) : pool :=
  {| shared_model := g; loads := n; threads := replicate k TCheck |}.

(** *** Predicates used by the statements *)

(** [a] occurs in [b] as a substring. *)
Definition infix_of (a b : str) : Prop := exists p q, b = p ++ a ++ q.

(** What sequential execution maintains: the log holds one load
    exactly when [_model] is set, the engine reference is the first
    one made, and the log holds one conditioning of a voice exactly
    when that voice is in [_voice_states]. *)
Record consistent (w : World) : Prop := {
  cons_loads :
    count_loads (log w) = (if _model w is Some _ then 1 else 0)%nat;
  cons_model : forall m, _model w = Some m -> m = 0%nat;
  cons_voices : forall v,
    count_condition v (log w)
    = (if _voice_states w !! v is Some _ then 1 else 0)%nat
}.

(** A computation that keeps the process state consistent. *)
Definition preserves {A} (m : M A) : Prop :=
  forall w, consistent w -> consistent (snd (m w)).

(** The state after more events were logged. *)
Definition add_log (l : list event) (w : World) : World :=
  {| _model := _model w; _voice_states := _voice_states w;
     log := log w ++ l |}.

(** A text the handlers refuse: empty, or nothing left once stripped. *)
Definition blank (text : str) : Prop := text = [] \/ strip text = [].

(** What a streamed body does, in order: the header is sent, each
    frame is pulled and its encoding sent, the end of the sequence is
    found and the silence sent. *)
Definition stream_events (header : bytes) (frames : list frame)
    (silence : bytes) : list event :=
  [EvSend header]
  ++ flat_map (λ f, [EvPull; EvSend (pcm_from_chunk f)]) frames
  ++ [EvPull; EvSend silence].

(** The events of a request before its response starts. *)
Definition setup_event (voice : str) (e : event) : Prop :=
  e = EvLoad \/ e = EvCondition voice.

(** The order of a successful [/tts] stream, served with enough fuel
    for its frames: after the engine and voice state are resolved
    and the lazy sequence is created, the header is sent before
    anything is pulled, then the frames in the order they are
    yielded, then the silence. *)
Definition http_stream_contract (h sil : bytes) : Prop :=
  forall (text voice : str) (w : World),
    ~ blank text -> voice ∈ VOICES ->
    exists (s : VoiceState) (pre : list event),
      let frames := generate_audio_stream model s (strip text) in
      let events :=
        pre ++ [EvGenerate (strip text)] ++ stream_events h frames sil in
      Forall (setup_event voice) pre
      /\ (forall fuel : nat, (length frames + 3 <= fuel)%nat ->
             exists w' : World,
               serve_tts fuel text voice w = (Ok tt, w')
               /\ log w' = log w ++ events)
      /\ concat (sent events)
         = h ++ concat (map pcm_from_chunk frames) ++ sil
      /\ exists before after,
           events = before ++ EvSend h :: after
           /\ (EvPull ∉ before) /\ sent before = [].

(** The same order for a request to the raw server that decodes. *)
Definition raw_stream_contract (h sil : bytes) : Prop :=
  forall (data : bytes) (d voice text : str)
         (voice_states : gmap str VoiceState),
    utf8_decode data = Some d ->
    parse_request d = (voice, text) ->
    exists (s : VoiceState) (pre : list event)
           (voice_states' : gmap str VoiceState),
      let frames := generate_audio_stream model s text in
      let events :=
        pre ++ [EvSend h; EvGenerate text]
        ++ flat_map (λ f, [EvPull; EvSend (pcm_from_chunk f)]) frames
        ++ [EvPull; EvSend sil] in
      handle_client data voice_states = (voice_states', events, true)
      /\ concat (sent events)
         = h ++ concat (map pcm_from_chunk frames) ++ sil
      /\ (EvPull ∉ pre) /\ sent pre = [].

(** How a handler answers a request it refuses: with status 400
    exactly when the text is blank or the voice unknown, the text
    checked first, and the process left as it was. *)
Definition validates (handler : str -> str -> M StreamingResponse) : Prop :=
  forall (text voice : str) (w : World),
    ((exists d, fst (handler text voice w) = Raise (HTTPException 400 d))
     <-> blank text \/ voice ∉ VOICES)
    /\ (blank text ->
        handler text voice w
        = (Raise (HTTPException 400 (py "Text cannot be empty")), w))
    /\ (~ blank text -> voice ∉ VOICES ->
        handler text voice w
        = (Raise (HTTPException 400 (invalid_voice_detail voice)), w)).

(** A pool whose engine is loaded: [_model] holds [m], and every
    caller is about to test it, about to return it, or has returned
    it. *)
Definition loaded (m : nat) (n : nat) (p : pool) : Prop :=
  shared_model p = Some m /\ loads p = n
  /\ Forall (λ t, t = TCheck \/ t = TReturn \/ t = TDone (Some m))
       (threads p).

(** The response headers of [/tts]. *)
Definition tts_headers : list (str * str) :=
  [(py "Content-Disposition", py "attachment; filename=speech.wav");
   (py "X-Sample-Rate", py_str_Z (sample_rate model));
   (py "X-Streaming", py "true")].

(** ** Properties *)

(** *** Bytes *)

Lemma Z_of_byte_of_Z (z : Z) : Z_of_byte (byte_of_Z z) = z mod 256.
Proof.
  unfold Z_of_byte, byte_of_Z.
  assert (Hr : 0 <= z mod 256 < 256) by (apply Z.mod_pos_bound; lia).
  destruct (Byte.of_N (Z.to_N (z mod 256))) as [b|] eqn:E.
  - apply Byte.to_of_N in E. rewrite E. lia.
  - apply Byte.of_N_None_iff in E. lia.
Qed.

Lemma length_le_bytes (n : nat) (v : Z) : length (le_bytes n v) = n.
Proof. revert v. induction n as [|n IH]; intros v; simpl; [done|]. by rewrite IH. Qed.

Lemma le_value_le_bytes (n : nat) (v : Z) :
  le_value (le_bytes n v) = v mod 256 ^ Z.of_nat n.
Proof.
  revert v. induction n as [|n IH]; intros v.
  - simpl. by rewrite Z.mod_1_r.
  - cbn [le_bytes le_value]. rewrite Z_of_byte_of_Z, IH.
    rewrite Nat2Z.inj_succ, Z.pow_succ_r by lia.
    rewrite Z.rem_mul_r by lia. lia.
Qed.

Lemma le_value_le_bytes_small (n : nat) (v : Z) :
  0 <= v < 256 ^ Z.of_nat n -> le_value (le_bytes n v) = v.
Proof. intros H. rewrite le_value_le_bytes. by apply Z.mod_small. Qed.

Lemma pack_I_Some (v : Z) :
  0 <= v <= 4294967295 -> pack_I v = Some (le_bytes 4 v).
Proof.
  intros H. unfold pack_I.
  destruct (Z.leb_spec 0 v), (Z.leb_spec v 4294967295); simpl; auto; lia.
Qed.

Lemma pack_H_Some (v : Z) :
  0 <= v <= 65535 -> pack_H v = Some (le_bytes 2 v).
Proof.
  intros H. unfold pack_H.
  destruct (Z.leb_spec 0 v), (Z.leb_spec v 65535); simpl; auto; lia.
Qed.

Lemma pack_I_inv (v : Z) (b : bytes) :
  pack_I v = Some b -> 0 <= v <= 4294967295 /\ b = le_bytes 4 v.
Proof.
  unfold pack_I.
  destruct (Z.leb_spec 0 v), (Z.leb_spec v 4294967295); simpl;
    intros [= <-]; auto with lia.
Qed.

Lemma pack_H_inv (v : Z) (b : bytes) :
  pack_H v = Some b -> 0 <= v <= 65535 /\ b = le_bytes 2 v.
Proof.
  unfold pack_H.
  destruct (Z.leb_spec 0 v), (Z.leb_spec v 65535); simpl;
    intros [= <-]; auto with lia.
Qed.

(** *** The container header *)

Lemma pack_wav_header_layout (channels rate byte_rate block_align : Z) :
  0 <= channels <= 65535 -> 0 <= rate <= 4294967295 ->
  0 <= byte_rate <= 4294967295 -> 0 <= block_align <= 65535 ->
  byte_rate = rate * channels * 16 / 8 ->
  block_align = channels * 16 / 8 ->
  exists h,
    pack_wav_header (tag "RIFF") (0x7FFFFFFF + 36) (tag "WAVE") (tag "fmt ")
      16 1 channels rate byte_rate block_align 16 (tag "data") 0x7FFFFFFF
    = Some h
    /\ streaming_layout h channels rate.
Proof.
  intros Hc Hr Hb Ha Eb Ea. unfold pack_wav_header.
  rewrite !pack_I_Some, !pack_H_Some by lia. cbn [mbind option_bind].
  eexists. split; [reflexivity|].
  unfold streaming_layout, u32_at, u16_at, field. rewrite <- Eb, <- Ea.
  cbn [tag list_byte_of_string app le_bytes length take drop].
  repeat split; try reflexivity;
    match goal with
    | |- le_value ?l = ?v =>
        change l with (le_bytes 4 v) || change l with (le_bytes 2 v)
    end; apply le_value_le_bytes_small; simpl; lia.
Qed.

Lemma raw_header_eq_daemon (sample_rate : Z) :
  Raw.make_wav_header sample_rate = Daemon.make_wav_header sample_rate 1 16.
Proof.
  unfold Raw.make_wav_header, Daemon.make_wav_header.
  replace (sample_rate * 1 * 16 / 8) with (sample_rate * 2)
    by (rewrite Z.mul_1_r; apply Z.div_unique_exact; lia).
  reflexivity.
Qed.

(** The mono header exists for every rate up to 2^31 - 1, and
    the two servers build the same one. *)
Lemma mono_header_exists (sample_rate : Z) :
  0 <= sample_rate <= 2147483647 ->
  exists h,
    Daemon.make_wav_header sample_rate 1 16 = Some h
    /\ Raw.make_wav_header sample_rate = Some h
    /\ length h = 44%nat.
Proof.
  intros Hr.
  assert (E : sample_rate * 1 * 16 / 8 = sample_rate * 2)
    by (rewrite Z.mul_1_r; symmetry; apply Z.div_unique_exact; lia).
  assert (H3 : 0 <= sample_rate * 1 * 16 / 8 <= 4294967295)
    by (rewrite E; lia).
  assert (H4 : 0 <= 1 * 16 / 8 <= 65535) by (split; discriminate).
  destruct (pack_wav_header_layout 1 sample_rate _ _
              ltac:(lia) ltac:(lia) H3 H4 eq_refl eq_refl) as (h & Hh & L).
  exists h. split; [exact Hh|]. split; [|apply L].
  rewrite raw_header_eq_daemon. exact Hh.
Qed.

(** C2, amended. For every sample rate and channel count whose
    fields fit (the sample rate and the byte rate in 32 bits, the
    channel count and the block align in 16), the streaming header is
    44 bytes laid out little-endian as RIFF, 0x7FFFFFFF + 36, WAVE,
    fmt, 16, 1, the channel count, the sample rate, the byte rate
    [rate * channels * 16 / 8], the block align [channels * 16 / 8],
    16, data, 0x7FFFFFFF; the raw server's header is the mono one. *)
Theorem make_wav_header_layout (sample_rate num_channels : Z) :
  0 <= sample_rate <= 4294967295 ->
  0 <= num_channels ->
  num_channels * 2 <= 65535 ->
  sample_rate * num_channels * 2 <= 4294967295 ->
  exists h,
    Daemon.make_wav_header sample_rate num_channels 16 = Some h
    /\ (num_channels = 1 -> Raw.make_wav_header sample_rate = Some h)
    /\ streaming_layout h num_channels sample_rate.
Proof.
  intros Hr Hc Ha Hb.
  assert (Eb : sample_rate * num_channels * 16 / 8
               = sample_rate * num_channels * 2)
    by (symmetry; apply Z.div_unique_exact; lia).
  assert (Ea : num_channels * 16 / 8 = num_channels * 2)
    by (symmetry; apply Z.div_unique_exact; lia).
  destruct (pack_wav_header_layout num_channels sample_rate
              (sample_rate * num_channels * 16 / 8)
              (num_channels * 16 / 8)) as (h & Hh & L);
    try reflexivity; try nia.
  exists h. split; [exact Hh|]. split; [|exact L].
  intros ->. rewrite raw_header_eq_daemon. exact Hh.
Qed.

(** The mono header exists exactly when the byte rate fits 32 bits. *)
Lemma make_wav_header_defined (sample_rate : Z) :
  is_Some (Daemon.make_wav_header sample_rate 1 16)
  <-> 0 <= sample_rate <= 2147483647.
Proof.
  split.
  - intros [h Hh]. unfold Daemon.make_wav_header, pack_wav_header in Hh.
    repeat match type of Hh with
           | (?m ≫= _) = Some _ =>
               let E := fresh "E" in
               destruct m eqn:E; cbn [mbind option_bind] in Hh; [|discriminate]
           end.
    match goal with
    | H : pack_I (sample_rate * 1 * 16 / 8) = Some _ |- _ =>
        apply pack_I_inv in H as [H _];
        replace (sample_rate * 1 * 16 / 8) with (sample_rate * 2) in H
          by (rewrite Z.mul_1_r; apply Z.div_unique_exact; lia);
        lia
    end.
  - intros H.
    destruct (mono_header_exists sample_rate) as (h & Hh & _); try lia.
    by exists h.
Qed.

(** C2, as stated, fails: at 2^31 Hz the sample rate fits its field
    and the byte rate does not, and [struct.pack] raises. *)
Lemma make_wav_header_overflow :
  Daemon.make_wav_header 2147483648 1 16 = None
  /\ Raw.make_wav_header 2147483648 = None.
Proof. split; reflexivity. Qed.

(** *** Floating point: rounding after a multiplication *)

Lemma shr_1_m (mrs : shr_record) :
  0 <= shr_m mrs -> shr_m (shr_1 mrs) = shr_m mrs / 2.
Proof.
  destruct mrs as [m r s]. cbn [shr_m shr_1].
  destruct m as [|[p|p|]|p]; cbn [shr_m]; intros H; try lia;
    try reflexivity.
  - apply Z.div_unique with 1; lia.
  - apply Z.div_unique with 0; lia.
Qed.

Lemma iter_pos_shr_m (p : positive) (mrs : shr_record) :
  0 <= shr_m mrs ->
  shr_m (SpecFloat.iter_pos shr_1 p mrs) = shr_m mrs / 2 ^ Zpos p.
Proof.
  revert mrs. induction p as [p IH|p IH|]; intros mrs H; cbn [SpecFloat.iter_pos].
  - assert (H1 : 0 <= shr_m (shr_1 mrs))
      by (rewrite shr_1_m by done; apply Z.div_pos; lia).
    assert (H2 : 0 <= shr_m (SpecFloat.iter_pos shr_1 p (shr_1 mrs)))
      by (rewrite IH by done; apply Z.div_pos; lia).
    rewrite IH, IH, shr_1_m by done.
    rewrite !Z.div_div by lia. f_equal.
    rewrite <- Z.pow_add_r, <- Z.pow_succ_r by lia. f_equal. lia.
  - assert (H2 : 0 <= shr_m (SpecFloat.iter_pos shr_1 p mrs))
      by (rewrite IH by done; apply Z.div_pos; lia).
    rewrite IH, IH by done.
    rewrite !Z.div_div by lia. f_equal.
    rewrite <- Z.pow_add_r by lia. f_equal. lia.
  - rewrite shr_1_m by done. reflexivity.
Qed.

Lemma shr_m_shr (m e n : Z) (l : location) :
  0 <= m ->
  let '(mrs, e') := shr (shr_record_of_loc m l) e n in
  shr_m mrs = m / 2 ^ Z.max 0 n /\ e' = e + Z.max 0 n.
Proof.
  intros H.
  assert (Hm : shr_m (shr_record_of_loc m l) = m)
    by (destruct l as [|[]]; reflexivity).
  destruct n as [|p|p]; cbn [shr].
  - rewrite Hm. simpl. rewrite Z.div_1_r. lia.
  - rewrite iter_pos_shr_m, Hm by (rewrite Hm; done).
    rewrite Z.max_r by lia. done.
  - rewrite Hm. simpl. rewrite Z.div_1_r. lia.
Qed.

Lemma round_nearest_even_bounds (m : Z) (l : location) :
  m <= round_nearest_even m l <= m + 1.
Proof. destruct l as [|[]]; cbn; try destruct (Z.even m); lia. Qed.

Lemma Zdigits2_log2 (m : positive) :
  Zpos (digits2_pos m) = Z.log2 (Zpos m) + 1.
Proof.
  induction m as [m IH|m IH|]; cbn [digits2_pos]; try reflexivity;
    rewrite Pos2Z.inj_succ, IH.
  - rewrite Pos2Z.inj_xI, Z.log2_succ_double by lia. lia.
  - rewrite Pos2Z.inj_xO, Z.log2_double by lia. lia.
Qed.

Lemma Zdigits2_bounds (m : positive) :
  2 ^ (Zpos (digits2_pos m) - 1) <= Zpos m < 2 ^ Zpos (digits2_pos m).
Proof.
  rewrite Zdigits2_log2.
  replace (Z.log2 (Z.pos m) + 1 - 1) with (Z.log2 (Z.pos m)) by lia.
  replace (Z.log2 (Z.pos m) + 1) with (Z.succ (Z.log2 (Z.pos m))) by lia.
  apply Z.log2_spec. lia.
Qed.

(** What [binary_round_aux] does to an exact positive mantissa:
    a shift by [n] places that drops bits, a rounding that adds at
    most one, and a second shift by [k] places. *)
Lemma binary_round_aux_spec (prec emax : Z) (s : bool) (M : positive) (e : Z) :
  exists n k mr,
    n = Z.max 0 (fexp prec emax (Zpos (digits2_pos M) + e) - e)
    /\ k = Z.max 0 (fexp prec emax (Zdigits2 mr + (e + n)) - (e + n))
    /\ Zpos M / 2 ^ n <= mr <= Zpos M / 2 ^ n + 1
    /\ (n = 0 -> mr = Zpos M)
    /\ binary_round_aux prec emax s (Zpos M) e loc_Exact =
       match mr / 2 ^ k with
       | Z0 => S754_zero s
       | Zpos m =>
           if e + n + k <=? emax - prec
           then S754_finite s m (e + n + k) else S754_infinity s
       | Zneg _ => S754_nan
       end.
Proof.
  unfold binary_round_aux, shr_fexp. cbn [Zdigits2].
  set (d := fexp prec emax (Zpos (digits2_pos M) + e) - e).
  assert (Hd : d = fexp prec emax (Zpos (digits2_pos M) + e) - e) by done.
  clearbody d.
  assert (H0 : d <= 0 ->
               shr (shr_record_of_loc (Zpos M) loc_Exact) e d
               = (shr_record_of_loc (Zpos M) loc_Exact, e))
    by (destruct d; [reflexivity | lia | reflexivity]).
  destruct (Z.le_gt_cases d 0) as [Hle|Hgt].
  - rewrite H0 by done. clear H0.
    change (round_nearest_even
              (shr_m (shr_record_of_loc (Z.pos M) loc_Exact))
              (loc_of_shr_record (shr_record_of_loc (Z.pos M) loc_Exact)))
      with (Zpos M).
    exists 0, (Z.max 0 (fexp prec emax (Zdigits2 (Zpos M) + (e + 0)) - (e + 0))),
      (Zpos M).
    rewrite Z.pow_0_r, Z.div_1_r, !Z.add_0_r.
    repeat split; try lia.
    pose proof (shr_m_shr (Zpos M) e
                  (fexp prec emax (Zdigits2 (Zpos M) + e) - e)
                  loc_Exact ltac:(lia)) as Hs.
    destruct (shr _ _ _) as [mrs'' e'']. cbv beta iota in Hs.
    destruct Hs as [-> ->]. reflexivity.
  - clear H0. destruct d as [|p|p]; try lia. cbn [shr].
    set (mrs' := SpecFloat.iter_pos shr_1 p (shr_record_of_loc (Zpos M) loc_Exact)).
    set (mr := round_nearest_even (shr_m mrs') (loc_of_shr_record mrs')).
    assert (Hq : shr_m mrs' = Zpos M / 2 ^ Zpos p)
      by (unfold mrs'; rewrite iter_pos_shr_m; [reflexivity | simpl; lia]).
    pose proof (round_nearest_even_bounds (shr_m mrs') (loc_of_shr_record mrs'))
      as Hb. fold mr in Hb. rewrite Hq in Hb.
    assert (0 <= Zpos M / 2 ^ Zpos p) by (apply Z.div_pos; lia).
    exists (Zpos p), (Z.max 0 (fexp prec emax (Zdigits2 mr + (e + Zpos p))
                            - (e + Zpos p))), mr.
    repeat split; try lia.
    pose proof (shr_m_shr mr (e + Zpos p)
                  (fexp prec emax (Zdigits2 mr + (e + Zpos p)) - (e + Zpos p))
                  loc_Exact ltac:(lia)) as Hs.
    destruct (shr _ _ _) as [mrs'' e'']. cbv beta iota in Hs.
    destruct Hs as [-> ->]. reflexivity.
Qed.

(** Truncation of a magnitude [m * 2^e], bounded through a scaling
    that makes it an integer. *)
Lemma shiftl_lt_scaled (m e B : Z) :
  0 <= m -> -200 <= e -> 0 < B ->
  m * 2 ^ (e + 200) < B * 2 ^ 200 ->
  0 <= Z.shiftl m e < B.
Proof.
  intros Hm He HB H. destruct (Z.le_gt_cases 0 e) as [H0|H0].
  - rewrite Z.shiftl_mul_pow2 by done.
    rewrite Z.pow_add_r in H by lia.
    assert (0 < 2 ^ e) by (apply Z.pow_pos_nonneg; lia).
    assert (0 < 2 ^ 200) by (apply Z.pow_pos_nonneg; lia).
    split; [nia|]. nia.
  - rewrite Z.shiftl_div_pow2 by lia.
    assert (0 < 2 ^ (- e)) by (apply Z.pow_pos_nonneg; lia).
    split; [apply Z.div_pos; lia|].
    apply Z.div_lt_upper_bound; [done|].
    assert (E : 2 ^ 200 = 2 ^ (- e) * 2 ^ (e + 200))
      by (rewrite <- Z.pow_add_r by lia; f_equal; lia).
    rewrite E in H.
    assert (0 < 2 ^ (e + 200)) by (apply Z.pow_pos_nonneg; lia).
    nia.
Qed.

(** The product of a binary32 magnitude below one by 32767, after
    rounding: still below 32768. *)
Lemma scaled_product_bound (m : positive) (e n k mr : Z) :
  Zpos m < 2 ^ 24 -> -149 <= e <= -24 ->
  n = Z.max 0 (fexp 24 128 (Zpos (digits2_pos (m * 16776704)) + (e + -9))
               - (e + -9)) ->
  0 <= k ->
  Zpos (m * 16776704) / 2 ^ n <= mr <= Zpos (m * 16776704) / 2 ^ n + 1 ->
  0 <= mr / 2 ^ k
  /\ mr / 2 ^ k * 2 ^ (e + -9 + n + k + 200) < 32768 * 2 ^ 200.
Proof.
  intros Hm He Hn Hk Hmr.
  pose proof (Zdigits2_bounds (m * 16776704)) as Hd.
  set (d := Zpos (digits2_pos (m * 16776704))) in *.
  assert (Hd48 : d <= 48).
  { destruct (Z.le_gt_cases d 48) as [|Hgt]; [done|exfalso].
    assert (2 ^ 48 <= 2 ^ (d - 1)) by (apply Z.pow_le_mono_r; lia).
    rewrite Pos2Z.inj_mul in Hd. lia. }
  assert (Hne : 0 <= n /\ n + e <= 9)
    by (unfold fexp, emin in Hn; lia).
  destruct Hne as [Hn0 Hne]. clear Hn.
  rewrite Pos2Z.inj_mul in Hmr.
  set (M := Zpos m * 16776704) in *.
  assert (HM : 0 < M) by (unfold M; lia).
  assert (Hpn : 0 < 2 ^ n) by (apply Z.pow_pos_nonneg; lia).
  assert (Hpk : 0 < 2 ^ k) by (apply Z.pow_pos_nonneg; lia).
  assert (Hq : 0 <= M / 2 ^ n) by (apply Z.div_pos; lia).
  assert (Hq2 : M / 2 ^ n * 2 ^ n <= M)
    by (rewrite Z.mul_comm; apply Z.mul_div_le; lia).
  assert (Hr2 : mr / 2 ^ k * 2 ^ k <= mr)
    by (rewrite Z.mul_comm; apply Z.mul_div_le; lia).
  assert (Hr0 : 0 <= mr / 2 ^ k) by (apply Z.div_pos; lia).
  split; [done|].
  set (P := 2 ^ (e + 191)).
  assert (HP : 0 < P <= 2 ^ 167).
  { split; [apply Z.pow_pos_nonneg; lia|].
    apply Z.pow_le_mono_r; lia. }
  assert (HQ : 2 ^ n * P <= 2 ^ 200).
  { unfold P. rewrite <- Z.pow_add_r by lia. apply Z.pow_le_mono_r; lia. }
  replace (e + -9 + n + k + 200) with (k + (n + (e + 191))) by lia.
  rewrite !Z.pow_add_r by lia. fold P.
  assert (H1 : mr / 2 ^ k * (2 ^ k * (2 ^ n * P)) <= mr * (2 ^ n * P)) by nia.
  assert (H2 : mr * 2 ^ n <= M + 2 ^ n) by nia.
  assert (H3 : mr * (2 ^ n * P) <= M * P + 2 ^ n * P) by nia.
  assert (H4 : Zpos m * P <= (2 ^ 24 - 1) * 2 ^ 167)
    by (apply Z.mul_le_mono_nonneg; lia).
  unfold M in H3. change (2 ^ 24) with 16777216 in *.
  change (2 ^ 167) with 187072209578355573530071658587684226515959365500928 in *.
  change (2 ^ 200) with
    1606938044258990275541962092341162602522202993782792835301376 in *.
  lia.
Qed.

Lemma bounded_f32 (m : positive) (e : Z) :
  bounded 24 128 m e = true ->
  Zpos m < 2 ^ 24 /\ -149 <= e <= 104
  /\ (-149 < e -> 2 ^ 23 <= Zpos m).
Proof.
  unfold bounded, canonical_mantissa, fexp, emin.
  intros [Hc He%Z.leb_le]%andb_prop. apply Z.eqb_eq in Hc.
  pose proof (Zdigits2_bounds m) as Hd.
  set (d := Zpos (digits2_pos m)) in *.
  clearbody d. assert (d <= 24) by lia.
  assert (2 ^ d <= 2 ^ 24) by (apply Z.pow_le_mono_r; lia).
  repeat split; try lia.
  intros Hn. assert (d = 24) by lia. subst d.
  replace (24 - 1) with 23 in Hd by lia. lia.
Qed.

(** A binary32 value that is not a NaN, once clamped: a zero, plus
    or minus one, or a magnitude below one. *)
Lemma clamp_cases (x : float) :
  f32_valid x = true -> is_nan x = false ->
  let c := clamp (f32_of_Z (-1)) (f32_of_Z 1) x in
  (exists s, c = S754_zero s)
  \/ (exists s, c = S754_finite s 8388608 (-23))
  \/ (exists s m e, c = S754_finite s m e
                    /\ Zpos m < 2 ^ 24 /\ -149 <= e <= -24).
Proof.
  intros Hv Hn. destruct x as [s|s| |s m e]; try discriminate.
  - left. exists s. by destruct s.
  - right. left. destruct s; [exists true | exists false]; reflexivity.
  - cbn in Hv. apply bounded_f32 in Hv as (Hm & He & Hnorm).
    change (f32_of_Z (-1)) with (S754_finite true 8388608 (-23)).
    change (f32_of_Z 1) with (S754_finite false 8388608 (-23)).
    unfold clamp, SFltb. destruct s; cbn [SFcompare].
    + (* negative *)
      destruct (Z.compare_spec e (-23)) as [->|Hlt|Hgt].
      * assert (Zpos m = 8388608 \/ 8388608 < Zpos m) as [E|Hgt] by lia.
        -- injection E as ->. right. left. by exists true.
        -- change (Pos.compare_cont Eq m 8388608) with (Pos.compare m 8388608).
           rewrite (proj2 (Pos.compare_gt_iff m 8388608)) by lia.
           right. left. by exists true.
      * right. right. exists true, m, e. repeat split; lia.
      * right. left. by exists true.
    + (* positive *)
      destruct (Z.compare_spec (-23) e) as [<-|Hlt|Hgt].
      * assert (Zpos m = 8388608 \/ 8388608 < Zpos m) as [E|Hgt] by lia.
        -- injection E as ->. right. left. by exists false.
        -- change (Pos.compare_cont Eq 8388608 m) with (Pos.compare 8388608 m).
           rewrite (proj2 (Pos.compare_lt_iff 8388608 m)) by lia.
           right. left. by exists false.
      * right. left. by exists false.
      * right. right. exists false, m, e. repeat split; lia.
Qed.

(** No overflow: after the clamp and the scaling, the truncation of
    a sample that is not a NaN lies within plus and minus 32767. *)
Lemma trunc_scale_range (x : float) :
  f32_valid x = true -> is_nan x = false ->
  exists z, trunc (f32_mul (clamp (f32_of_Z (-1)) (f32_of_Z 1) x) (f32_of_Z 32767)) = Some z
            /\ -32767 <= z <= 32767.
Proof.
  intros Hv Hn.
  destruct (clamp_cases x Hv Hn) as [[s ->]|[[s ->]|(s & m & e & -> & Hm & He)]].
  - exists 0. split; [by destruct s|lia].
  - destruct s; [exists (-32767) | exists 32767]; split; (reflexivity || lia).
  - change (f32_of_Z 32767) with (S754_finite false 16776704 (-9)).
    unfold f32_mul. cbn [SFmul].
    destruct (binary_round_aux_spec 24 128 (xorb s false) (m * 16776704) (e + -9))
      as (n & k & mr & Hn' & Hk & Hmr & _ & ->).
    assert (Hk0 : 0 <= k) by lia.
    destruct (scaled_product_bound m e n k mr Hm He Hn' Hk0 Hmr) as [H0 Hb].
    destruct (mr / 2 ^ k) as [|p|p] eqn:Ep; [| |lia].
    + exists 0. split; [done|lia].
    + assert (HE : -200 <= e + -9 + n + k) by lia.
      assert (Hexp : e + -9 + n + k <= 104).
      { destruct (Z.le_gt_cases (e + -9 + n + k) 104) as [|Hgt]; [done|exfalso].
        assert (2 ^ 304 <= 2 ^ (e + -9 + n + k + 200))
          by (apply Z.pow_le_mono_r; lia).
        change (2 ^ 304) with (2 ^ 104 * 2 ^ 200) in *.
        assert (0 < 2 ^ 200) by (apply Z.pow_pos_nonneg; lia).
        assert (32768 < 2 ^ 104) by (apply Z.pow_gt_lin_r || reflexivity).
        nia. }
      rewrite (proj2 (Z.leb_le _ _)) by exact Hexp.
      pose proof (shiftl_lt_scaled (Zpos p) (e + -9 + n + k) 32768
                    ltac:(lia) HE ltac:(lia) Hb) as Hs.
      cbn [trunc].
      destruct (xorb s false).
      * eexists. split; [reflexivity|]. lia.
      * eexists. split; [reflexivity|]. lia.
Qed.

(** *** Frame encoding *)

Lemma int16_wrap_range (z : Z) : -32768 <= int16_wrap z <= 32767.
Proof.
  unfold int16_wrap.
  pose proof (Z.mod_pos_bound (z + 32768) 65536 ltac:(lia)). lia.
Qed.

Lemma short_range (x : float) : -32768 <= short x <= 32767.
Proof.
  unfold short. destruct (trunc x) as [z|]; [|apply int16_wrap_range].
  destruct (in_int16 z) eqn:E; [|apply int16_wrap_range].
  unfold in_int16 in E. apply andb_prop in E as [?%Z.leb_le ?%Z.leb_le]. lia.
Qed.

(** Where the truncation fits, the cast is the truncation. *)
Lemma short_exact (x : float) (z : Z) :
  trunc x = Some z -> -32768 <= z <= 32767 -> short x = z.
Proof.
  intros E H. unfold short. rewrite E. unfold in_int16.
  destruct (Z.leb_spec (-32768) z), (Z.leb_spec z 32767); simpl; lia.
Qed.

Lemma length_tobytes (a : list Z) : length (tobytes a) = (2 * length a)%nat.
Proof.
  unfold tobytes. induction a as [|z a IH]; [done|].
  cbn [flat_map]. rewrite length_app, length_le_bytes, IH. simpl. lia.
Qed.

Lemma field_tobytes (a : list Z) (i : nat) (z : Z) :
  a !! i = Some z -> field (tobytes a) (2 * i) 2 = le_bytes 2 z.
Proof.
  revert i. induction a as [|y a IH]; intros i H; [done|].
  destruct i as [|i].
  - injection H as ->. reflexivity.
  - replace (2 * S i)%nat with (S (S (2 * i))) by lia.
    cbn in H. apply IH in H. exact H.
Qed.

(** C4. Every frame of binary32 samples is encoded, sample by
    sample and in order, as the two little-endian bytes of a signed
    16-bit integer: the sample clamped to [-1, 1], multiplied by
    32767 and truncated. For every sample that is a number the
    truncation lies within plus and minus 32767, so the cast never
    overflows; whatever the sample, the integer is an int16. The
    output has two bytes per sample, and the raw server's inline
    encoding is the same function. *)
Theorem pcm_from_chunk_spec (chunk : frame) :
  Forall (λ x, f32_valid x = true) chunk ->
  length (pcm_from_chunk chunk) = (2 * length chunk)%nat
  /\ tobytes (to_int16 chunk) = pcm_from_chunk chunk
  /\ forall (i : nat) (x : float), chunk !! i = Some x ->
       let y := f32_mul (clamp (f32_of_Z (-1)) (f32_of_Z 1) x)
                  (f32_of_Z 32767) in
       exists z : Z,
         -32768 <= z <= 32767
         /\ field (pcm_from_chunk chunk) (2 * i) 2 = le_bytes 2 z
         /\ u16_at (pcm_from_chunk chunk) (2 * i) = z mod 65536
         /\ z = short y
         /\ (is_nan x = false -> trunc y = Some z /\ -32767 <= z <= 32767).
Proof.
  intros Hv. unfold pcm_from_chunk.
  split; [rewrite length_tobytes; unfold to_int16; by rewrite length_map|].
  split; [reflexivity|].
  intros i x Hi.
  set (y := f32_mul (clamp (f32_of_Z (-1)) (f32_of_Z 1) x) (f32_of_Z 32767)).
  cbv zeta. fold y. exists (short y).
  assert (Hz : to_int16 chunk !! i = Some (short y))
    by (unfold to_int16; rewrite list_lookup_fmap, Hi; reflexivity).
  pose proof (field_tobytes _ _ _ Hz) as Hf.
  split; [apply short_range|]. split; [exact Hf|].
  split; [unfold u16_at; rewrite Hf; apply le_value_le_bytes|].
  split; [reflexivity|].
  intros Hn.
  assert (Hx : f32_valid x = true)
    by (rewrite Forall_lookup in Hv; exact (Hv i x Hi)).
  destruct (trunc_scale_range x Hx Hn) as (z & Ez & Hr).
  fold y in Ez. rewrite (short_exact y z Ez ltac:(lia)). auto.
Qed.

(** *** The monad and the log *)

Lemma count_loads_app (l1 l2 : list event) :
  count_loads (l1 ++ l2) = (count_loads l1 + count_loads l2)%nat.
Proof. unfold count_loads. by rewrite filter_app, length_app. Qed.

Lemma count_condition_app (v : str) (l1 l2 : list event) :
  count_condition v (l1 ++ l2)
  = (count_condition v l1 + count_condition v l2)%nat.
Proof. unfold count_condition. by rewrite filter_app, length_app. Qed.

Lemma count_condition_one (v v' : str) :
  count_condition v [EvCondition v'] = (if decide (v' = v) then 1 else 0)%nat.
Proof.
  unfold count_condition. rewrite filter_cons, filter_nil.
  destruct (decide (v' = v)) as [->|Hne].
  - by rewrite decide_True.
  - rewrite decide_False; [done|]. by intros [= ?].
Qed.

Lemma preserves_ret {A} (a : A) : preserves (ret a).
Proof. by intros w H. Qed.

Lemma preserves_raise {A} (e : exn) : preserves (raise (A:=A) e).
Proof. by intros w H. Qed.

Lemma preserves_bind {A B} (m : M A) (k : A -> M B) :
  preserves m -> (forall a, preserves (k a)) -> preserves (bind m k).
Proof.
  intros Hm Hk w H. unfold bind. specialize (Hm w H).
  destruct (m w) as [[a|e] w']; [apply Hk; exact Hm | exact Hm].
Qed.

Lemma preserves_try_py {A} (name : string) (o : option A) :
  preserves (try_py name o).
Proof. destruct o; [apply preserves_ret | apply preserves_raise]. Qed.

(** Events other than a load or a conditioning leave the counts. *)
Lemma preserves_emit (e : event) :
  e <> EvLoad -> (forall v, e <> EvCondition v) -> preserves (emit e).
Proof.
  intros H1 H2 w [Hl Hm Hv]. split; cbn.
  - rewrite count_loads_app, Hl. unfold count_loads.
    rewrite filter_cons, filter_nil, decide_False by done. simpl. lia.
  - exact Hm.
  - intros v. rewrite count_condition_app, Hv. unfold count_condition.
    rewrite filter_cons, filter_nil, decide_False by apply H2. simpl. lia.
Qed.

(** *** Engine handle, sequentially *)

Lemma get_model_loaded (w : World) (m : nat) :
  _model w = Some m -> get_model w = (Ok m, w).
Proof. intros H. unfold get_model. by rewrite H. Qed.

Lemma get_model_fresh (w : World) :
  _model w = None ->
  get_model w =
    (Ok (count_loads (log w)),
     {| _model := Some (count_loads (log w));
        _voice_states := _voice_states w;
        log := log w ++ [EvLoad] |}).
Proof. intros H. unfold get_model. by rewrite H. Qed.

Lemma preserves_get_model : preserves get_model.
Proof.
  intros w [Hl Hm Hv]. unfold get_model.
  destruct (_model w) as [m|] eqn:E; cbn; [by split; rewrite ?E|].
  split; cbn.
  - rewrite count_loads_app, Hl. reflexivity.
  - intros m [= <-]. exact Hl.
  - intros v. rewrite count_condition_app, Hv. unfold count_condition.
    rewrite filter_cons, filter_nil, decide_False by done. simpl. lia.
Qed.

Lemma get_model_result (w : World) :
  consistent w -> fst (get_model w) = Ok 0%nat.
Proof.
  intros [Hl Hm Hv]. unfold get_model.
  destruct (_model w) as [m|] eqn:E; cbn.
  - by rewrite (Hm m).
  - by rewrite Hl.
Qed.

(** *** Voice-state cache *)

Lemma get_voice_state_hit (voice : str) (s : VoiceState) (w : World) :
  _voice_states w !! voice = Some s ->
  get_voice_state voice w = (Ok s, w).
Proof.
  intros H. unfold get_voice_state, bind, voice_cached, load_voice_state.
  rewrite H. cbn. by rewrite H.
Qed.

Lemma get_voice_state_miss (voice : str) (w : World) :
  _voice_states w !! voice = None ->
  get_voice_state voice w =
    (Ok (get_state_for_audio_prompt model voice),
     {| _model := _model (snd (get_model w));
        _voice_states :=
          <[voice := get_state_for_audio_prompt model voice]>
            (_voice_states w);
        log := log (snd (get_model w)) ++ [EvCondition voice] |}).
Proof.
  intros H.
  unfold get_voice_state, bind, voice_cached, load_voice_state, emit,
    store_voice_state.
  rewrite H. cbn. unfold get_model.
  destruct (_model w) as [m|]; cbn; by rewrite lookup_insert_eq.
Qed.

Lemma preserves_get_voice_state (voice : str) :
  preserves (get_voice_state voice).
Proof.
  intros w H.
  destruct (_voice_states w !! voice) as [s|] eqn:E.
  - by rewrite (get_voice_state_hit voice s w E).
  - rewrite (get_voice_state_miss voice w E). cbn.
    pose proof (preserves_get_model w H) as [Hl Hm Hv].
    assert (Evs : _voice_states (snd (get_model w)) = _voice_states w)
      by (unfold get_model; destruct (_model w); reflexivity).
    split; cbn.
    + rewrite count_loads_app, Hl. unfold count_loads.
      rewrite filter_cons, filter_nil, decide_False by done. simpl. lia.
    + exact Hm.
    + intros v. rewrite count_condition_app, Hv, Evs, count_condition_one.
      destruct (decide (voice = v)) as [->|Hne].
      * by rewrite E, lookup_insert_eq.
      * rewrite lookup_insert_ne by done.
        destruct (_voice_states w !! v); lia.
Qed.

(** *** Floating point: the trailing silence count *)

Lemma iter_xO_pow2 (p k : positive) :
  Zpos (Pos.iter xO p k) = Zpos p * 2 ^ Zpos k.
Proof.
  induction k as [|k IH] using Pos.peano_ind.
  - simpl. lia.
  - rewrite Pos.iter_succ, Pos2Z.inj_xO, IH, Pos2Z.inj_succ, Z.pow_succ_r by lia.
    lia.
Qed.

Lemma digits2_unique (m : positive) (k : Z) :
  2 ^ (k - 1) <= Zpos m < 2 ^ k -> Zpos (digits2_pos m) = k.
Proof.
  intros H. pose proof (Zdigits2_bounds m) as Hd.
  set (d := Zpos (digits2_pos m)) in *. assert (0 < d) by (unfold d; lia).
  clearbody d.
  destruct (Z.lt_trichotomy d k) as [Hlt|[->|Hgt]]; [exfalso|done|exfalso].
  - assert (2 ^ d <= 2 ^ (k - 1)) by (apply Z.pow_le_mono_r; lia). lia.
  - assert (0 <= k).
    { destruct (Z.le_gt_cases 0 k); [done|].
      rewrite (Z.pow_neg_r 2 k) in H by lia. lia. }
    assert (2 ^ k <= 2 ^ (d - 1)) by (apply Z.pow_le_mono_r; lia). lia.
Qed.

(** The conversion of a positive int below 2^53 to a float is exact. *)
Lemma f64_of_Z_exact (p : positive) :
  Zpos p < 2 ^ 53 ->
  exists mz d,
    f64_of_Z (Zpos p) = S754_finite false mz (d - 53)
    /\ 1 <= d <= 53
    /\ Zpos mz = Zpos p * 2 ^ (53 - d)
    /\ 2 ^ 52 <= Zpos mz < 2 ^ 53
    /\ 2 ^ (d - 1) <= Zpos p < 2 ^ d.
Proof.
  intros Hp. pose proof (Zdigits2_bounds p) as Hd.
  set (d := Zpos (digits2_pos p)) in *.
  assert (Hd1 : 1 <= d) by (unfold d; lia).
  assert (Hd53 : d <= 53).
  { destruct (Z.le_gt_cases d 53) as [|Hgt]; [done|exfalso].
    assert (2 ^ 53 <= 2 ^ (d - 1)) by (apply Z.pow_le_mono_r; lia). lia. }
  unfold f64_of_Z, binary_normalize, binary_round.
  fold d. rewrite Z.add_0_r.
  assert (Ef : fexp 53 1024 d = d - 53) by (unfold fexp, emin; lia).
  rewrite Ef.
  assert (Hscale : forall mz, Zpos mz = Zpos p * 2 ^ (53 - d) ->
                     2 ^ 52 <= Zpos mz < 2 ^ 53).
  { intros mz E. rewrite E.
    assert (0 < 2 ^ (53 - d)) by (apply Z.pow_pos_nonneg; lia).
    assert (E1 : 2 ^ 52 = 2 ^ (d - 1) * 2 ^ (53 - d))
      by (rewrite <- Z.pow_add_r by lia; f_equal; lia).
    assert (E2 : 2 ^ 53 = 2 ^ d * 2 ^ (53 - d))
      by (rewrite <- Z.pow_add_r by lia; f_equal; lia).
    rewrite E1, E2. nia. }
  assert (Hal : exists mz, shl_align p 0 (d - 53) = (mz, d - 53)
                           /\ Zpos mz = Zpos p * 2 ^ (53 - d)).
  { unfold shl_align. rewrite Z.sub_0_r.
    destruct (d - 53) as [|q|q] eqn:E; try lia.
    - exists p. split; [done|]. replace (53 - d) with 0 by lia. simpl. lia.
    - exists (Pos.iter xO p q). split; [done|].
      rewrite iter_xO_pow2. f_equal. f_equal. lia. }
  destruct Hal as (mz & -> & Emz). pose proof (Hscale mz Emz) as Hmz.
  exists mz, d. repeat split; try lia.
  destruct (binary_round_aux_spec 53 1024 false mz (d - 53))
    as (n & k & mr & Hn & Hk & Hmr & Hex & ->).
  assert (Dm : Zpos (digits2_pos mz) = 53) by (apply digits2_unique; simpl; lia).
  rewrite Dm in Hn.
  assert (En : n = 0) by (unfold fexp, emin in Hn; lia).
  clear Hn. rewrite En in *. specialize (Hex eq_refl). rewrite Hex in *.
  cbn [Zdigits2] in Hk. rewrite Dm in Hk.
  assert (Ek : k = 0) by (unfold fexp, emin in Hk; lia).
  clear Hk. rewrite Ek.
  rewrite Z.pow_0_r, Z.div_1_r, !Z.add_0_r.
  rewrite (proj2 (Z.leb_le _ _)) by lia. reflexivity.
Qed.

(** [int(sample_rate * 0.2)] is the integer quotient by five: the
    rounding of the product never reaches the next integer. *)
Lemma silence_samples_div5 (sample_rate : Z) :
  0 <= sample_rate < 2 ^ 32 ->
  silence_samples sample_rate = Some (sample_rate / 5).
Proof.
  intros Hsr. unfold silence_samples.
  destruct sample_rate as [|p|p]; [reflexivity| |lia].
  destruct (f64_of_Z_exact p) as (mz & d & -> & Hd & Emz & Hmz & Hp).
  { assert (2 ^ 32 < 2 ^ 53) by (apply Z.pow_lt_mono_r; lia). lia. }
  assert (Hd32 : d <= 32).
  { destruct (Z.le_gt_cases d 32) as [|Hgt]; [done|exfalso].
    assert (2 ^ 32 <= 2 ^ (d - 1)) by (apply Z.pow_le_mono_r; lia). lia. }
  unfold f64_mul, f64_0_2, py_int. cbn [SFmul xorb].
  destruct (binary_round_aux_spec 53 1024 false (mz * 7205759403792794)
              (d - 53 + -55)) as (n & k & mr & Hn & Hk & Hmr & _ & ->).
  set (M := Zpos (mz * 7205759403792794)) in *.
  assert (EM : M = Zpos mz * 7205759403792794) by (unfold M; lia).
  pose proof (Zdigits2_bounds (mz * 7205759403792794)) as HD. fold M in HD.
  set (D := Zpos (digits2_pos (mz * 7205759403792794))) in *.
  assert (HDr : 105 <= D <= 106).
  { change (2 ^ 52) with 4503599627370496 in Hmz.
    change (2 ^ 53) with 9007199254740992 in Hmz.
    assert (2 ^ 104 <= M < 2 ^ 106).
    { change (2 ^ 104) with 20282409603651670423947251286016.
      change (2 ^ 106) with 81129638414606681695789005144064. lia. }
    split.
    - destruct (Z.le_gt_cases 105 D) as [|Hlt]; [done|exfalso].
      assert (2 ^ D <= 2 ^ 104) by (apply Z.pow_le_mono_r; unfold D; lia). lia.
    - destruct (Z.le_gt_cases D 106) as [|Hgt]; [done|exfalso].
      assert (2 ^ 106 <= 2 ^ (D - 1)) by (apply Z.pow_le_mono_r; lia). lia. }
  clearbody D.
  assert (En : n = D - 53) by (unfold fexp, emin in Hn; lia). clear Hn.
  assert (Hpn : 0 < 2 ^ n) by (apply Z.pow_pos_nonneg; lia).
  assert (Hq0 : 2 ^ 52 <= M / 2 ^ n < 2 ^ 53).
  { split.
    - apply Z.div_le_lower_bound; [lia|].
      rewrite <- Z.pow_add_r by lia. replace (n + 52) with (D - 1) by lia. lia.
    - apply Z.div_lt_upper_bound; [lia|].
      rewrite <- Z.pow_add_r by lia. replace (n + 53) with D by lia. lia. }
  assert (Hmr0 : 0 < mr)
    by (assert (0 < 2 ^ 52) by (apply Z.pow_pos_nonneg; lia); lia).
  destruct mr as [|pr|pr]; try lia.
  assert (Hk01 : 0 <= k <= 1).
  { cbn [Zdigits2] in Hk. pose proof (Zdigits2_bounds pr) as Hdr.
    set (dr := Zpos (digits2_pos pr)) in *.
    assert (dr <= 54).
    { destruct (Z.le_gt_cases dr 54) as [|Hgt]; [done|exfalso].
      assert (2 ^ 54 <= 2 ^ (dr - 1)) by (apply Z.pow_le_mono_r; lia).
      change (2 ^ 54) with (2 * 2 ^ 53) in *. lia. }
    unfold fexp, emin in Hk. lia. }
  clear Hk.
  assert (Hpk : 0 < 2 ^ k) by (apply Z.pow_pos_nonneg; lia).
  (* the bounds on the rounded mantissa, in units of 2^(d - 108) *)
  set (q := Zpos p / 5).
  assert (Hq : 5 * q <= Zpos p <= 5 * q + 4)
    by (unfold q; pose proof (Z.div_mod (Zpos p) 5 ltac:(lia));
        pose proof (Z.mod_pos_bound (Zpos p) 5 ltac:(lia)); lia).
  assert (Hq' : 0 <= q) by (apply Z.div_pos; lia).
  set (j := 108 - d - n - k).
  assert (Hj : 0 < j) by (unfold j; lia).
  assert (Hpj : 0 < 2 ^ j) by (apply Z.pow_pos_nonneg; lia).
  set (A := 2 ^ (53 - d)) in *.
  assert (HA : 2 ^ 21 <= A) by (apply Z.pow_le_mono_r; lia).
  assert (ET : 2 ^ j * 2 ^ k * 2 ^ n = A * 2 ^ 55).
  { unfold A, j. rewrite <- !Z.pow_add_r by lia. f_equal. lia. }
  assert (Hn53 : 2 ^ n <= 2 ^ 53) by (apply Z.pow_le_mono_r; lia).
  assert (Hlow : q * (2 ^ j * 2 ^ k) * 2 ^ n <= M).
  { rewrite EM, Emz.
    replace (q * (2 ^ j * 2 ^ k) * 2 ^ n) with (q * (2 ^ j * 2 ^ k * 2 ^ n)) by ring.
    rewrite ET. change (2 ^ 55) with 36028797018963968.
    change (2 ^ 21) with 2097152 in HA. nia. }
  assert (Hup : M + 2 ^ n < (q + 1) * (2 ^ j * 2 ^ k) * 2 ^ n).
  { rewrite EM, Emz.
    replace ((q + 1) * (2 ^ j * 2 ^ k) * 2 ^ n)
      with ((q + 1) * (2 ^ j * 2 ^ k * 2 ^ n)) by ring.
    rewrite ET. change (2 ^ 55) with 36028797018963968.
    change (2 ^ 53) with 9007199254740992 in *.
    change (2 ^ 52) with 4503599627370496 in *.
    change (2 ^ 21) with 2097152 in HA.
    rewrite Emz in Hmz. nia. }
  assert (Hlo2 : q * 2 ^ j <= Zpos pr / 2 ^ k).
  { apply Z.div_le_lower_bound; [lia|].
    assert (q * (2 ^ j * 2 ^ k) <= M / 2 ^ n)
      by (apply Z.div_le_lower_bound; lia).
    lia. }
  assert (Hup2 : Zpos pr / 2 ^ k < (q + 1) * 2 ^ j).
  { apply Z.div_lt_upper_bound; [lia|].
    assert (Hx : M / 2 ^ n * 2 ^ n <= M)
      by (rewrite Z.mul_comm; apply Z.mul_div_le; lia).
    assert (Hy : Zpos pr * 2 ^ n < (q + 1) * (2 ^ j * 2 ^ k) * 2 ^ n) by nia.
    apply Z.mul_lt_mono_pos_r in Hy; lia. }
  assert (Hm0 : 0 < Zpos pr / 2 ^ k).
  { apply Z.div_str_pos. split; [lia|].
    assert (2 ^ k <= 2 ^ 1) by (apply Z.pow_le_mono_r; lia).
    assert (2 ^ 1 < 2 ^ 52) by (apply Z.pow_lt_mono_r; lia). lia. }
  destruct (Zpos pr / 2 ^ k) as [|m''|m''] eqn:Em; try lia.
  rewrite (proj2 (Z.leb_le _ _)) by lia.
  cbn [trunc]. f_equal.
  rewrite Z.shiftl_div_pow2 by lia.
  replace (- (d - 53 + -55 + n + k)) with j by (unfold j; lia).
  symmetry. apply Z.div_unique with (Zpos m'' - q * 2 ^ j); lia.
Qed.

(** *** Validation *)

Lemma emit_add_log (e : event) (w : World) :
  emit e w = (Ok tt, add_log [e] w).
Proof. reflexivity. Qed.

Lemma add_log_app (l1 l2 : list event) (w : World) :
  add_log l2 (add_log l1 w) = add_log (l1 ++ l2) w.
Proof. unfold add_log. cbn. by rewrite <- app_assoc. Qed.

Lemma add_log_nil (w : World) : add_log [] w = w.
Proof. destruct w. unfold add_log. cbn. by rewrite app_nil_r. Qed.

Lemma is_empty_false (s : str) : s <> [] -> is_empty s = false.
Proof. by destruct s. Qed.

Lemma validate_blank (text voice : str) (w : World) :
  blank text ->
  validate text voice w
  = (Raise (HTTPException 400 (py "Text cannot be empty")), w).
Proof.
  intros [-> | H]; unfold validate; [reflexivity|].
  rewrite H. cbn [is_empty]. by rewrite orb_true_r.
Qed.

Lemma validate_voice (text voice : str) (w : World) :
  ~ blank text -> voice ∉ VOICES ->
  validate text voice w
  = (Raise (HTTPException 400 (invalid_voice_detail voice)), w).
Proof.
  intros Hb Hv. unfold validate, blank in *.
  rewrite !is_empty_false by tauto. cbn [orb].
  by rewrite bool_decide_eq_false_2.
Qed.

Lemma validate_ok (text voice : str) (w : World) :
  ~ blank text -> voice ∈ VOICES -> validate text voice w = (Ok tt, w).
Proof.
  intros Hb Hv. unfold validate, blank in *.
  rewrite !is_empty_false by tauto. cbn [orb].
  by rewrite bool_decide_eq_true_2.
Qed.

Lemma blank_dec (text : str) : blank text \/ ~ blank text.
Proof.
  unfold blank. destruct text as [|c r]; [by left; left|].
  destruct (strip (c :: r)) eqn:E; [by left; right|].
  right. intros [?|?]; discriminate.
Qed.

Lemma infix_of_app_l (a b p : str) : infix_of a b -> infix_of a (p ++ b).
Proof.
  intros (x & y & ->). exists (p ++ x), y. by rewrite <- app_assoc.
Qed.

Lemma infix_of_app_r (a b q : str) : infix_of a b -> infix_of a (b ++ q).
Proof.
  intros (x & y & ->). exists x, (y ++ q). by rewrite <- !app_assoc.
Qed.

Lemma infix_of_refl (a : str) : infix_of a a.
Proof. exists [], []. by rewrite app_nil_r. Qed.

Lemma infix_of_join (sep x : str) (l : list str) :
  x ∈ l -> infix_of x (join sep l).
Proof.
  induction l as [|y l IH]; intros H; [by apply elem_of_nil in H|].
  apply elem_of_cons in H as [->|H].
  - destruct l as [|z l]; cbn [join]; [apply infix_of_refl|].
    apply infix_of_app_r, infix_of_refl.
  - destruct l as [|z l]; [by apply elem_of_nil in H|].
    change (join sep (y :: z :: l)) with (y ++ sep ++ join sep (z :: l)).
    by apply infix_of_app_l, infix_of_app_l, IH.
Qed.

(** The message for an unknown voice names every valid voice. *)
Lemma invalid_voice_detail_lists (voice v : str) :
  v ∈ VOICES -> infix_of (repr_str v) (invalid_voice_detail voice).
Proof.
  intros H. unfold invalid_voice_detail, repr_list.
  do 4 apply infix_of_app_l. apply infix_of_app_r, infix_of_join.
  by apply (list_elem_of_fmap_2 repr_str).
Qed.


(** *** The handlers *)

(** Resolving the engine and the voice state never fails, only logs
    a load or a conditioning, and leaves the voice cached. *)
Lemma resolve_spec (voice : str) (w : World) :
  exists m s pre w2,
    get_model w = (Ok m, snd (get_model w))
    /\ get_voice_state voice (snd (get_model w)) = (Ok s, w2)
    /\ _voice_states w2 !! voice = Some s
    /\ w2 = {| _model := Some m; _voice_states := _voice_states w2;
               log := log w ++ pre |}
    /\ Forall (setup_event voice) pre
    /\ (voice ∈ dom (_voice_states w) -> _voice_states w2 = _voice_states w)
    /\ (forall v, v <> voice ->
          _voice_states w2 !! v = _voice_states w !! v).
Proof.
  destruct w as [mo vs l].
  assert (Hgm : exists m pre1,
    get_model {| _model := mo; _voice_states := vs; log := l |}
    = (Ok m, {| _model := Some m; _voice_states := vs; log := l ++ pre1 |})
    /\ Forall (setup_event voice) pre1).
  { unfold get_model. cbn. destruct mo as [m|].
    - exists m, []. rewrite app_nil_r. split; [done|constructor].
    - eexists _, [EvLoad]. split; [done|]. apply Forall_singleton. by left. }
  destruct Hgm as (m & pre1 & Hgm & Hpre1). rewrite Hgm. cbn [snd].
  destruct (vs !! voice) as [s|] eqn:E.
  - exists m, s, pre1. eexists. split; [done|].
    split; [by apply get_voice_state_hit|]. cbn.
    repeat split; auto.
  - exists m, (get_state_for_audio_prompt model voice),
      (pre1 ++ [EvCondition voice]). eexists. split; [done|].
    split; [by apply get_voice_state_miss|]. cbn.
    rewrite lookup_insert_eq, <- app_assoc.
    repeat split; auto.
    + apply Forall_app. split; [done|]. apply Forall_singleton. by right.
    + intros Hd. apply elem_of_dom in Hd as [? Hd]. congruence.
    + intros v Hv. by rewrite lookup_insert_ne.
Qed.

(** A valid request to [/tts] is answered by a generator that has
    not run yet: nothing is pulled, nothing is sent. *)
Lemma text_to_speech_ok (text voice : str) (w : World) :
  ~ blank text -> voice ∈ VOICES ->
  exists s pre w2,
    _voice_states w2 !! voice = Some s
    /\ log w2 = log w ++ pre
    /\ Forall (setup_event voice) pre
    /\ text_to_speech text voice w =
       (Ok {| body := BodyGen
                        (generate_streaming_wav
                           (generate_audio_stream model s (strip text))
                           (sample_rate model));
              media_type := py "audio/wav";
              headers := tts_headers |},
        add_log [EvGenerate (strip text)] w2).
Proof.
  intros Hb Hv.
  destruct (resolve_spec voice w)
    as (m & s & pre & w2 & Hgm & Hgv & Hs & Hw2 & Hpre & _).
  exists s, pre, w2. split; [done|]. split; [by rewrite Hw2|].
  split; [done|].
  unfold text_to_speech, bind. rewrite validate_ok, Hgm, Hgv by done.
  reflexivity.
Qed.


(** *** Streaming a body *)

Lemma silence_block_inv (sr : Z) (sil : bytes) :
  silence_block sr = Some sil ->
  exists n, silence_samples sr = Some n /\ 0 <= n
            /\ sil = replicate (Z.to_nat (n * 2)) x00.
Proof.
  unfold silence_block, py_bytes.
  destruct (silence_samples sr) as [n|]; [|discriminate]. cbn.
  destruct (Z.leb_spec 0 (n * 2)); [|discriminate].
  intros [= <-]. exists n. repeat split; lia.
Qed.

Lemma silence_block_py_bytes (sr n : Z) :
  silence_samples sr = Some n -> silence_block sr = py_bytes (n * 2).
Proof. intros H. unfold silence_block. by rewrite H. Qed.

(** The generator in its loop: with fuel for every frame, the
    silence and the end, it is drained in order. *)
Lemma stream_chunks (sr : Z) (sil : bytes) (frames : list frame) :
  silence_block sr = Some sil ->
  forall (fuel : nat) (w : World),
    (length frames + 2 <= fuel)%nat ->
    stream_response fuel
      (BodyGen {| pc := GenChunks; audio_chunks := frames;
                  gen_sample_rate := sr |}) w
    = (Ok tt,
       add_log (flat_map (λ f, [EvPull; EvSend (pcm_from_chunk f)]) frames
                ++ [EvPull; EvSend sil]) w).
Proof.
  intros Hsil.
  destruct (silence_block_inv sr sil Hsil) as (n & Hn & Hn0 & Esil).
  assert (Hpb : py_bytes (n * 2) = Some sil)
    by (rewrite <- (silence_block_py_bytes sr n Hn); exact Hsil).
  induction frames as [|f frames IH]; intros fuel w Hfuel.
  - destruct fuel as [|[|fuel]]; cbn in Hfuel; try lia.
    cbn [stream_response body_next gen_next pc audio_chunks gen_sample_rate].
    unfold bind, try_py, ret, emit, gen_at. cbn.
    rewrite Hn, Hpb. cbn.
    unfold add_log. cbn. by rewrite <- app_assoc.
  - destruct fuel as [|fuel]; cbn in Hfuel; try lia.
    cbn [stream_response body_next gen_next pc audio_chunks gen_sample_rate].
    unfold bind at 1 2 3 4. unfold ret, emit, gen_at. cbn [fst snd].
    cbn [gen_sample_rate log _model _voice_states].
    rewrite IH by lia.
    unfold add_log. cbn. by rewrite <- !app_assoc.
Qed.

(** The generator from its creation. *)
Lemma stream_generator (sr : Z) (h sil : bytes) (frames : list frame) :
  Daemon.make_wav_header sr 1 16 = Some h ->
  silence_block sr = Some sil ->
  forall (fuel : nat) (w : World),
    (length frames + 3 <= fuel)%nat ->
    stream_response fuel (BodyGen (generate_streaming_wav frames sr)) w
    = (Ok tt, add_log (stream_events h frames sil) w).
Proof.
  intros Hh Hsil fuel w Hfuel.
  destruct fuel as [|fuel]; [lia|].
  cbn [stream_response body_next gen_next generate_streaming_wav pc
       audio_chunks gen_sample_rate].
  rewrite Hh. unfold bind at 1 2 3 4. unfold try_py, ret, emit, gen_at.
  cbn [fst snd gen_sample_rate audio_chunks log _model _voice_states].
  rewrite (stream_chunks sr sil frames Hsil) by lia.
  unfold add_log, stream_events. cbn. by rewrite <- !app_assoc.
Qed.

(** A body that is one finished chunk. *)
Lemma stream_single (value : bytes) (fuel : nat) (w : World) :
  (2 <= fuel)%nat ->
  stream_response fuel (BodyList [value]) w
  = (Ok tt, add_log [EvSend value] w).
Proof. intros H. destruct fuel as [|[|fuel]]; try lia. reflexivity. Qed.

Lemma drain_spec (frames : list frame) (w : World) :
  drain frames w
  = (Ok frames, add_log (replicate (S (length frames)) EvPull) w).
Proof.
  revert w. induction frames as [|f frames IH]; intros w; [reflexivity|].
  cbn [drain]. unfold bind at 1. rewrite emit_add_log.
  unfold bind. rewrite IH. unfold ret. rewrite add_log_app. reflexivity.
Qed.


Lemma silence_block_total (sr : Z) :
  0 <= sr < 2 ^ 32 ->
  silence_block sr = Some (replicate (Z.to_nat (sr / 5 * 2)) x00).
Proof.
  intros H. unfold silence_block. rewrite silence_samples_div5 by done.
  cbn. unfold py_bytes.
  assert (0 <= sr / 5) by (apply Z.div_pos; lia).
  destruct (Z.leb_spec 0 (sr / 5 * 2)); [done|lia].
Qed.

Lemma sent_app (l1 l2 : list event) : sent (l1 ++ l2) = sent l1 ++ sent l2.
Proof. unfold sent. apply omap_app. Qed.

Lemma sent_chunks (frames : list frame) :
  sent (flat_map (λ f, [EvPull; EvSend (pcm_from_chunk f)]) frames)
  = map pcm_from_chunk frames.
Proof.
  induction frames as [|f frames IH]; [done|].
  cbn [flat_map map]. rewrite sent_app, IH. reflexivity.
Qed.

Lemma sent_setup (voice : str) (pre : list event) :
  Forall (setup_event voice) pre -> sent pre = [] /\ EvPull ∉ pre.
Proof.
  induction 1 as [|e pre He _ [IH1 IH2]]; [split; [done|apply not_elem_of_nil]|].
  split.
  - destruct He as [-> | ->]; exact IH1.
  - intros [Heq|Hin]%elem_of_cons; [|by apply IH2].
    destruct He as [-> | ->]; discriminate.
Qed.

Lemma sent_stream_events (h sil : bytes) (frames : list frame) :
  concat (sent (stream_events h frames sil))
  = h ++ concat (map pcm_from_chunk frames) ++ sil.
Proof.
  unfold stream_events. rewrite !sent_app, sent_chunks.
  change (sent [EvSend h]) with [h].
  change (sent [EvPull; EvSend sil]) with [sil].
  rewrite !concat_app. cbn. by rewrite !app_nil_r.
Qed.

Lemma send_chunks_events (frames : list frame) :
  send_chunks frames
  = flat_map (λ f, [EvPull; EvSend (pcm_from_chunk f)]) frames ++ [EvPull].
Proof.
  induction frames as [|f frames IH]; [done|].
  cbn [send_chunks flat_map app]. by rewrite IH.
Qed.

(** A request to the raw server that decodes and whose header and
    silence exist is served to its end, in this order. *)
Lemma handle_client_ok (data : bytes) (d voice text : str) (h sil : bytes)
    (voice_states : gmap str VoiceState) :
  utf8_decode data = Some d ->
  parse_request d = (voice, text) ->
  Raw.make_wav_header (sample_rate model) = Some h ->
  silence_block (sample_rate model) = Some sil ->
  let s := default (get_state_for_audio_prompt model voice)
             (voice_states !! voice) in
  let pre := if voice_states !! voice is Some _ then []
             else [EvCondition voice] in
  handle_client data voice_states
  = (<[voice := s]> voice_states,
     pre ++ [EvSend h; EvGenerate text]
     ++ flat_map (λ f, [EvPull; EvSend (pcm_from_chunk f)])
          (generate_audio_stream model s text)
     ++ [EvPull; EvSend sil],
     true).
Proof.
  intros Hd Hp Hh Hsil s pre. unfold handle_client.
  rewrite Hd, Hp. subst s pre.
  unfold silence_block in Hsil.
  destruct (voice_states !! voice) as [s|] eqn:E; cbn [default].
  - rewrite E, Hh, Hsil, send_chunks_events.
    rewrite insert_id by done. cbn. by rewrite <- !app_assoc.
  - rewrite lookup_insert_eq, Hh, Hsil, send_chunks_events.
    cbn. by rewrite <- !app_assoc.
Qed.


(** C1. With a sample rate the header can carry, every valid
    request to [/tts] and every decodable request to the raw server
    is served to its end, and its bytes are the 44-byte streaming
    header, sent before any frame is pulled from the engine, then
    the encoding of each frame in the order the engine yields them,
    none dropped, repeated or moved, then the silence block. *)
Theorem streaming_order :
  0 <= sample_rate model <= 2147483647 ->
  exists h sil : bytes,
    Daemon.make_wav_header (sample_rate model) 1 16 = Some h
    /\ Raw.make_wav_header (sample_rate model) = Some h
    /\ length h = 44%nat
    /\ silence_block (sample_rate model) = Some sil
    /\ http_stream_contract h sil
    /\ raw_stream_contract h sil.
Proof.
  intros Hsr.
  destruct (mono_header_exists (sample_rate model))
    as (h & Hh & Hraw & Hlen); try lia.
  assert (Hsil : silence_block (sample_rate model)
                 = Some (replicate (Z.to_nat (sample_rate model / 5 * 2)) x00)).
  { apply silence_block_total.
    assert (2147483647 < 2 ^ 32) by reflexivity. lia. }
  set (sil := replicate (Z.to_nat (sample_rate model / 5 * 2)) x00) in *.
  exists h, sil. do 4 (split; [done|]). split.
  - intros text voice w Hb Hv.
    destruct (text_to_speech_ok text voice w Hb Hv)
      as (s & pre & w2 & Hs & Hlog & Hpre & Htts).
    exists s, pre. cbv zeta.
    set (frames := generate_audio_stream model s (strip text)) in *.
    destruct (sent_setup voice pre Hpre) as [Hsent Hpull].
    split; [done|]. split; [|split].
    + intros fuel Hfuel. unfold serve_tts, bind. rewrite Htts.
      cbn [body]. rewrite (stream_generator _ h sil) by done.
      rewrite add_log_app. eexists. split; [reflexivity|].
      cbn [add_log log]. rewrite Hlog. by rewrite <- !app_assoc.
    + rewrite !sent_app, Hsent.
      change (sent [EvGenerate (strip text)]) with (@nil bytes).
      cbn [app]. apply sent_stream_events.
    + exists (pre ++ [EvGenerate (strip text)]),
        (flat_map (λ f, [EvPull; EvSend (pcm_from_chunk f)]) frames
         ++ [EvPull; EvSend sil]).
      split; [unfold stream_events; by rewrite <- !app_assoc|].
      split; [|by rewrite sent_app, Hsent].
      intros [Hin|Hin]%elem_of_app; [done|].
      apply list_elem_of_singleton in Hin. discriminate.
  - intros data d voice text vs Hd Hp.
    pose proof (handle_client_ok data d voice text h sil vs Hd Hp Hraw Hsil)
      as Hc. cbv zeta in Hc.
    eexists _, _, _. cbv zeta. split; [exact Hc|].
    assert (Hpre : sent (if vs !! voice is Some _ then []
                         else [EvCondition voice]) = []
                   /\ EvPull ∉ (if vs !! voice is Some _ then []
                                else [EvCondition voice])).
    { destruct (vs !! voice); split; try done.
      - apply not_elem_of_nil.
      - intros Hin. apply list_elem_of_singleton in Hin. discriminate. }
    destruct Hpre as [Hs0 Hp0]. split; [|done].
    rewrite !sent_app, Hs0, sent_chunks.
    change (sent [EvSend h; EvGenerate text]) with [h].
    change (sent [EvPull; EvSend sil]) with [sil].
    cbn [app]. rewrite concat_cons, concat_app. cbn. by rewrite app_nil_r.
Qed.


(** *** Sequential execution keeps the state consistent *)

Lemma consistent_init : consistent init.
Proof. by split. Qed.

Lemma preserves_validate (text voice : str) : preserves (validate text voice).
Proof.
  unfold validate.
  destruct (is_empty text || is_empty (strip text));
    [apply preserves_raise|].
  destruct (negb (bool_decide (voice ∈ VOICES)));
    [apply preserves_raise | apply preserves_ret].
Qed.

Lemma preserves_gen_next (g : generator) : preserves (gen_next g).
Proof.
  unfold gen_next. destruct (pc g).
  - apply preserves_bind; [apply preserves_try_py|].
    intros h. apply preserves_ret.
  - apply preserves_bind; [by apply preserves_emit|]. intros _.
    destruct (audio_chunks g); [|apply preserves_ret].
    apply preserves_bind; [apply preserves_try_py|]. intros n.
    apply preserves_bind; [apply preserves_try_py|]. intros b.
    apply preserves_ret.
  - apply preserves_ret.
  - apply preserves_ret.
Qed.

Lemma preserves_body_next (b : body_iterator) : preserves (body_next b).
Proof.
  destruct b as [g|[|c r]]; cbn [body_next]; try apply preserves_ret.
  apply preserves_bind; [apply preserves_gen_next|].
  intros [c g']. apply preserves_ret.
Qed.

Lemma preserves_stream_response (fuel : nat) (b : body_iterator) :
  preserves (stream_response fuel b).
Proof.
  revert b. induction fuel as [|fuel IH]; intros b; cbn [stream_response];
    [apply preserves_raise|].
  apply preserves_bind; [apply preserves_body_next|].
  intros [[c|] b']; [|apply preserves_ret].
  apply preserves_bind; [by apply preserves_emit|]. intros _. apply IH.
Qed.

Lemma preserves_drain (it : list frame) : preserves (drain it).
Proof.
  induction it as [|f it IH]; cbn [drain];
    (apply preserves_bind; [by apply preserves_emit|]; intros _).
  - apply preserves_ret.
  - apply preserves_bind; [exact IH|]. intros l. apply preserves_ret.
Qed.

Lemma preserves_text_to_speech (text voice : str) :
  preserves (text_to_speech text voice).
Proof.
  unfold text_to_speech.
  apply preserves_bind; [apply preserves_validate|]. intros _.
  apply preserves_bind; [apply preserves_get_model|]. intros _.
  apply preserves_bind; [apply preserves_get_voice_state|]. intros s.
  apply preserves_bind; [by apply preserves_emit|]. intros _.
  apply preserves_ret.
Qed.

Lemma preserves_text_to_speech_buffered (text voice : str) :
  preserves (text_to_speech_buffered text voice).
Proof.
  unfold text_to_speech_buffered.
  apply preserves_bind; [apply preserves_validate|]. intros _.
  apply preserves_bind; [apply preserves_get_model|]. intros _.
  apply preserves_bind; [apply preserves_get_voice_state|]. intros s.
  apply preserves_bind; [by apply preserves_emit|]. intros _.
  apply preserves_bind; [apply preserves_drain|]. intros chunks.
  destruct (bool_decide (chunks = [])); [apply preserves_raise|].
  apply preserves_bind; [apply preserves_try_py|]. intros v.
  apply preserves_ret.
Qed.

Lemma preserves_do_request (r : request) : preserves (do_request r).
Proof.
  destruct r as [|voice|fuel text voice|fuel text voice|]; cbn [do_request].
  - apply preserves_bind; [apply preserves_get_model|].
    intros _. apply preserves_ret.
  - apply preserves_bind; [apply preserves_get_voice_state|].
    intros _. apply preserves_ret.
  - apply preserves_bind; [apply preserves_text_to_speech|].
    intros r. apply preserves_stream_response.
  - apply preserves_bind; [apply preserves_text_to_speech_buffered|].
    intros r. apply preserves_stream_response.
  - unfold run_server.
    apply preserves_bind; [apply preserves_get_model|]. intros _.
    apply preserves_bind; [apply preserves_get_voice_state|]. intros _.
    apply preserves_ret.
Qed.

Lemma consistent_run_requests (rs : list request) (w : World) :
  consistent w -> consistent (run_requests rs w).
Proof.
  revert w. induction rs as [|r rs IH]; intros w H; [done|].
  cbn [run_requests]. apply IH, preserves_do_request, H.
Qed.

Lemma consistent_condition_le (w : World) (voice : str) :
  consistent w -> (count_condition voice (log w) <= 1)%nat.
Proof.
  intros [_ _ Hv]. rewrite Hv. destruct (_voice_states w !! voice); lia.
Qed.

(** C7. The lookup returns the cached state of a voice that is
    present and leaves the process as it was: no engine call. For a
    voice that is absent it conditions the voice once on the engine,
    stores the state under that name and returns it. Hence, however
    many requests a process has served one after the other, it has
    conditioned each voice at most once. *)
Theorem get_voice_state_cached :
  (forall (voice : str) (s : VoiceState) (w : World),
      _voice_states w !! voice = Some s ->
      get_voice_state voice w = (Ok s, w))
  /\ (forall (voice : str) (w : World),
        _voice_states w !! voice = None ->
        exists w' : World,
          get_voice_state voice w
          = (Ok (get_state_for_audio_prompt model voice), w')
          /\ _voice_states w'
             = <[voice := get_state_for_audio_prompt model voice]>
                 (_voice_states w)
          /\ count_condition voice (log w')
             = S (count_condition voice (log w))
          /\ forall v, v <> voice ->
               count_condition v (log w') = count_condition v (log w))
  /\ (forall (rs : list request) (voice : str),
        (count_condition voice (log (run_requests rs init)) <= 1)%nat)
  /\ (forall (fuel1 fuel2 : nat) (text1 text2 voice : str),
        (count_condition voice
           (log (run_requests [ReqTTS fuel1 text1 voice;
                               ReqTTS fuel2 text2 voice] init)) <= 1)%nat).
Proof.
  split; [exact get_voice_state_hit|]. split; [|split].
  - intros voice w H. eexists. split; [by apply get_voice_state_miss|].
    cbn [_voice_states log]. split; [done|].
    assert (Hc : forall v, count_condition v (log (snd (get_model w)))
                           = count_condition v (log w)).
    { intros v. unfold get_model. destruct (_model w); cbn; [done|].
      rewrite count_condition_app. unfold count_condition at 2.
      rewrite filter_cons, filter_nil, decide_False by done. simpl. lia. }
    split.
    + rewrite count_condition_app, Hc, count_condition_one.
      rewrite decide_True by done. lia.
    + intros v Hv. rewrite count_condition_app, Hc, count_condition_one.
      rewrite decide_False by done. lia.
  - intros rs voice. apply consistent_condition_le, consistent_run_requests,
      consistent_init.
  - intros fuel1 fuel2 text1 text2 voice.
    apply consistent_condition_le, consistent_run_requests, consistent_init.
Qed.


(** *** The buffered handler *)

Lemma pack_wav_header_sizes
    (file_size channels rate byte_rate block_align bits data_size : Z) :
  0 <= file_size <= 4294967295 -> 0 <= channels <= 65535 ->
  0 <= rate <= 4294967295 -> 0 <= byte_rate <= 4294967295 ->
  0 <= block_align <= 65535 -> 0 <= bits <= 65535 ->
  0 <= data_size <= 4294967295 ->
  exists h,
    pack_wav_header (tag "RIFF") file_size (tag "WAVE") (tag "fmt ")
      16 1 channels rate byte_rate block_align bits (tag "data") data_size
    = Some h
    /\ length h = 44%nat
    /\ field h 0 4 = tag "RIFF"
    /\ u32_at h 4 = file_size
    /\ field h 8 4 = tag "WAVE"
    /\ u16_at h 20 = 1
    /\ u16_at h 22 = channels
    /\ u32_at h 24 = rate
    /\ u16_at h 34 = bits
    /\ field h 36 4 = tag "data"
    /\ u32_at h 40 = data_size.
Proof.
  intros Hf Hc Hr Hb Ha Hbits Hd. unfold pack_wav_header.
  rewrite !pack_I_Some, !pack_H_Some by lia. cbn [mbind option_bind].
  eexists. split; [reflexivity|].
  unfold u32_at, u16_at, field.
  cbn [tag list_byte_of_string app le_bytes length take drop].
  repeat split; try reflexivity;
    match goal with
    | |- le_value ?l = ?v =>
        change l with (le_bytes 4 v) || change l with (le_bytes 2 v)
    end; apply le_value_le_bytes_small; simpl; lia.
Qed.

(** What [wave] writes for mono 16-bit data: a header that declares
    the exact length of the data, then the data. *)
Lemma wave_write_exact (framerate : Z) (data : bytes) :
  0 < framerate <= 2147483647 ->
  Z.of_nat (length data) + 36 <= 4294967295 ->
  exists h,
    wave_write 1 2 framerate data = Some (h ++ data)
    /\ length h = 44%nat
    /\ field h 0 4 = tag "RIFF"
    /\ u32_at h 4 = 36 + Z.of_nat (length data)
    /\ field h 8 4 = tag "WAVE"
    /\ u16_at h 22 = 1
    /\ u32_at h 24 = framerate
    /\ u16_at h 34 = 16
    /\ u32_at h 40 = Z.of_nat (length data).
Proof.
  intros Hr Hl. unfold wave_write.
  destruct (Z.leb_spec framerate 0); [lia|].
  destruct (pack_wav_header_sizes (36 + Z.of_nat (length data)) 1 framerate
              (1 * framerate * 2) (1 * 2) (2 * 8) (Z.of_nat (length data)))
    as (h & -> & Hlen & H0 & H4 & H8 & _ & H22 & H24 & H34 & _ & H40);
    try lia.
  exists h. cbn [mbind option_bind]. repeat split; assumption.
Qed.

(** The buffered handler on a valid request: the engine's sequence
    is drained, then the outcome depends on what was drained. *)
Lemma text_to_speech_buffered_ok (text voice : str) (w : World) :
  ~ blank text -> voice ∈ VOICES ->
  exists s pre w2,
    _voice_states w2 !! voice = Some s
    /\ log w2 = log w ++ pre
    /\ Forall (setup_event voice) pre
    /\ let frames := generate_audio_stream model s (strip text) in
       text_to_speech_buffered text voice w =
       ((if bool_decide (frames = []) then
           Raise (HTTPException 500 (py "No audio generated"))
         else
           match wave_write 1 2 (sample_rate model)
                   (tobytes (to_int16 (concat frames))) with
           | Some value =>
               Ok {| body := BodyList [value];
                     media_type := py "audio/wav"; headers := [] |}
           | None => Raise (PyError "wave.Error")
           end),
        add_log ([EvGenerate (strip text)]
                 ++ replicate (S (length frames)) EvPull) w2).
Proof.
  intros Hb Hv.
  destruct (resolve_spec voice w)
    as (m & s & pre & w2 & Hgm & Hgv & Hs & Hw2 & Hpre & _).
  exists s, pre, w2. split; [done|]. split; [by rewrite Hw2|].
  split; [done|]. cbv zeta.
  unfold text_to_speech_buffered, bind.
  rewrite validate_ok, Hgm, Hgv by done.
  rewrite emit_add_log, drain_spec, add_log_app.
  destruct (bool_decide _); [reflexivity|].
  destruct (wave_write _ _ _ _); reflexivity.
Qed.


(** *** Blank texts *)

Lemma lstrip_nil (s : str) :
  lstrip s = [] <-> Forall (λ c, is_space c = true) s.
Proof.
  induction s as [|c r IH]; cbn [lstrip]; [by split|].
  destruct (is_space c) eqn:E.
  - rewrite IH. split; [by constructor|]. by inversion 1.
  - split; [discriminate|]. inversion 1; congruence.
Qed.

Lemma lstrip_head (s r : str) (c : N) :
  lstrip s = c :: r -> is_space c = false.
Proof.
  induction s as [|x s IH]; cbn [lstrip]; [discriminate|].
  destruct (is_space x) eqn:E; [exact IH|]. by intros [= <- _].
Qed.

Lemma strip_nil (s : str) :
  strip s = [] <-> Forall (λ c, is_space c = true) s.
Proof.
  unfold strip, rstrip. rewrite <- lstrip_nil. split.
  - intros H. assert (H' : lstrip (rev (lstrip s)) = []).
    { rewrite <- (rev_involutive (lstrip (rev (lstrip s)))), H. done. }
    apply lstrip_nil in H'. apply Forall_rev in H'.
    rewrite rev_involutive in H'.
    destruct (lstrip s) as [|c r] eqn:E; [done|].
    apply lstrip_head in E. inversion H'; congruence.
  - by intros ->.
Qed.

Lemma blank_spaces (text : str) :
  blank text <-> Forall (λ c, is_space c = true) text.
Proof.
  unfold blank. rewrite strip_nil. split; [|by right].
  intros [->|H]; [constructor | done].
Qed.

Lemma validates_intro (handler : str -> str -> M StreamingResponse) :
  (forall text voice w r w',
      validate text voice w = (Raise r, w') ->
      handler text voice w = (Raise r, w')) ->
  (forall text voice w,
      ~ blank text -> voice ∈ VOICES ->
      forall d, fst (handler text voice w) <> Raise (HTTPException 400 d)) ->
  validates handler.
Proof.
  intros Hr Hok text voice w.
  destruct (blank_dec text) as [Hb|Hb].
  - rewrite (Hr _ _ _ _ _ (validate_blank text voice w Hb)).
    split; [|split]; try done. split; [by left | by eexists].
  - destruct (decide (voice ∈ VOICES)) as [Hin|Hin].
    + split; [|split]; try done.
      split; [|tauto]. intros [d Hd]. by apply (Hok text voice w Hb Hin) in Hd.
    + rewrite (Hr _ _ _ _ _ (validate_voice text voice w Hb Hin)).
      split; [|split]; try done. split; [by right | by eexists].
Qed.

Lemma VOICES_NoDup : NoDup VOICES /\ length VOICES = 8%nat.
Proof. split; [|reflexivity]. apply (bool_decide_unpack _). by vm_compute. Qed.

(** C5. Both handlers answer with status 400 exactly when the text
    is blank (empty, or white space only, so that nothing is left
    once stripped) or the voice is not one of the eight; a blank
    text is reported whatever the voice; the message for an unknown
    voice lists every valid voice; and a refused request leaves the
    process as it was, so that no engine or voice-state call is made. *)
Theorem validation_errors :
  validates text_to_speech
  /\ validates text_to_speech_buffered
  /\ (forall text, blank text <-> Forall (λ c, is_space c = true) text)
  /\ NoDup VOICES /\ length VOICES = 8%nat
  /\ (forall voice v, v ∈ VOICES ->
        infix_of (repr_str v) (invalid_voice_detail voice)).
Proof.
  split; [|split; [|split; [exact blank_spaces|]]].
  - apply validates_intro.
    + intros text voice w r w' H.
      unfold text_to_speech, bind. by rewrite H.
    + intros text voice w Hb Hv d.
      destruct (text_to_speech_ok text voice w Hb Hv)
        as (s & pre & w2 & _ & _ & _ & ->). discriminate.
  - apply validates_intro.
    + intros text voice w r w' H.
      unfold text_to_speech_buffered, bind. by rewrite H.
    + intros text voice w Hb Hv d.
      destruct (text_to_speech_buffered_ok text voice w Hb Hv)
        as (s & pre & w2 & _ & _ & _ & E). cbv zeta in E. rewrite E.
      cbn [fst]. destruct (bool_decide _); [discriminate|].
      destruct (wave_write _ _ _ _); discriminate.
  - destruct VOICES_NoDup as [H1 H2]. split; [done|]. split; [done|].
    exact invalid_voice_detail_lists.
Qed.


(** C6. On a valid request, with a sample rate the container can
    carry, the buffered handler pulls the engine's whole sequence
    before it answers; it raises the status-500 error exactly when
    nothing was drained; otherwise, when the payload fits the 32-bit
    size fields, it answers with one body, a 44-byte header whose
    data size is the exact length of the payload, two bytes per
    sample of all the frames, followed by that payload, and the body
    is sent in one piece after the last pull. *)
Theorem buffered_response (text voice : str) (w : World) :
  ~ blank text -> voice ∈ VOICES ->
  0 < sample_rate model <= 2147483647 ->
  exists (s : VoiceState) (pre : list event),
    let frames := generate_audio_stream model s (strip text) in
    let payload := tobytes (to_int16 (concat frames)) in
    let handled := text_to_speech_buffered text voice w in
    Forall (setup_event voice) pre
    /\ log (snd handled)
       = log w ++ pre ++ [EvGenerate (strip text)]
         ++ replicate (S (length frames)) EvPull
    /\ ((exists d, fst handled = Raise (HTTPException 500 d))
        <-> frames = [])
    /\ length payload = (2 * length (concat frames))%nat
    /\ (frames <> [] ->
        Z.of_nat (length payload) + 36 <= 4294967295 ->
        exists h : bytes,
          fst handled = Ok {| body := BodyList [h ++ payload];
                              media_type := py "audio/wav";
                              headers := [] |}
          /\ length h = 44%nat
          /\ field h 0 4 = tag "RIFF"
          /\ u32_at h 4 = 36 + Z.of_nat (length payload)
          /\ u32_at h 40 = Z.of_nat (length payload)
          /\ forall fuel : nat, (2 <= fuel)%nat ->
               exists w' : World,
                 serve_tts_buffered fuel text voice w = (Ok tt, w')
                 /\ log w' = log (snd handled) ++ [EvSend (h ++ payload)]).
Proof.
  intros Hb Hv Hsr.
  destruct (text_to_speech_buffered_ok text voice w Hb Hv)
    as (s & pre & w2 & _ & Hlog & Hpre & E).
  exists s, pre. cbv zeta in E |- *.
  set (frames := generate_audio_stream model s (strip text)) in *.
  set (payload := tobytes (to_int16 (concat frames))) in *.
  split; [done|]. split; [|split; [|split]].
  - rewrite E. cbn [snd add_log log]. rewrite Hlog.
    by rewrite <- !app_assoc.
  - rewrite E. cbn [fst]. split.
    + intros [d Hd]. destruct (decide (frames = [])) as [|Hne]; [done|].
      rewrite bool_decide_eq_false_2 in Hd by done.
      destruct (wave_write _ _ _ _); discriminate.
    + intros ->. rewrite bool_decide_eq_true_2 by done. by eexists.
  - unfold payload. rewrite length_tobytes. unfold to_int16.
    by rewrite length_map.
  - intros Hne Hfit.
    destruct (wave_write_exact (sample_rate model) payload Hsr Hfit)
      as (h & Hw & Hlen & H0 & H4 & _ & _ & _ & _ & H40).
    exists h.
    assert (Eh : text_to_speech_buffered text voice w =
                 (Ok {| body := BodyList [h ++ payload];
                        media_type := py "audio/wav"; headers := [] |},
                  add_log ([EvGenerate (strip text)]
                           ++ replicate (S (length frames)) EvPull) w2)).
    { rewrite E, bool_decide_eq_false_2 by done. by rewrite Hw. }
    rewrite Eh. cbn [fst snd]. do 5 (split; [done|]).
    intros fuel Hfuel. unfold serve_tts_buffered, bind. rewrite Eh.
    cbn [body]. rewrite stream_single by done.
    eexists. split; [reflexivity|]. reflexivity.
Qed.


(** C3, amended. With a sample rate the header can carry, every
    successful streaming response, over [/tts] and over the raw
    socket, is the header, the frames, and then, as its last chunk
    and only there, one block of [int(rate * 0.2)] zero samples of 16
    bits, which is [rate / 5] rounded down, two zero bytes each. The
    buffered response is a header and the payload, with no silence
    after it. *)
Theorem trailing_silence :
  0 <= sample_rate model <= 2147483647 ->
  let n := sample_rate model / 5 in
  let sil := replicate (Z.to_nat (n * 2)) x00 in
  silence_samples (sample_rate model) = Some n
  /\ silence_block (sample_rate model) = Some sil
  /\ length sil = Z.to_nat (2 * n)
  /\ (forall (text voice : str) (w : World),
        ~ blank text -> voice ∈ VOICES ->
        exists s : VoiceState,
          let frames := generate_audio_stream model s (strip text) in
          forall fuel : nat, (length frames + 3 <= fuel)%nat ->
            exists (w' : World) (events : list event) (h : bytes),
              serve_tts fuel text voice w = (Ok tt, w')
              /\ log w' = log w ++ events
              /\ sent events = [h] ++ map pcm_from_chunk frames ++ [sil])
  /\ (forall (data : bytes) (d voice text : str)
             (voice_states : gmap str VoiceState),
        utf8_decode data = Some d ->
        parse_request d = (voice, text) ->
        exists (s : VoiceState) (voice_states' : gmap str VoiceState)
               (events : list event) (h : bytes),
          handle_client data voice_states = (voice_states', events, true)
          /\ sent events
             = [h] ++ map pcm_from_chunk (generate_audio_stream model s text)
               ++ [sil])
  /\ (forall (text voice : str) (w : World) (fuel : nat)
             (w' : World),
        serve_tts_buffered fuel text voice w = (Ok tt, w') ->
        exists (s : VoiceState) (events : list event) (h : bytes),
          log w' = log w ++ events
          /\ length h = 44%nat
          /\ sent events
             = [h ++ tobytes (to_int16
                        (concat (generate_audio_stream model s (strip text))))]).
Proof.
  intros Hsr n sil.
  assert (Hsr32 : 0 <= sample_rate model < 2 ^ 32)
    by (assert (2147483647 < 2 ^ 32) by reflexivity; lia).
  pose proof (silence_samples_div5 _ Hsr32) as Hn.
  pose proof (silence_block_total _ Hsr32) as Hsil. fold n sil in Hn, Hsil.
  destruct (mono_header_exists (sample_rate model))
    as (h & Hh & Hraw & _); try lia.
  split; [done|]. split; [done|].
  split; [unfold sil; rewrite length_replicate; f_equal; lia|].
  split; [|split].
  - intros text voice w Hb Hv.
    destruct (text_to_speech_ok text voice w Hb Hv)
      as (s & pre & w2 & _ & Hlog & Hpre & Htts).
    exists s. cbv zeta. intros fuel Hfuel.
    destruct (sent_setup voice pre Hpre) as [Hsent _].
    unfold serve_tts, bind. rewrite Htts. cbn [body].
    rewrite (stream_generator _ h sil) by done. rewrite add_log_app.
    eexists _, (pre ++ [EvGenerate (strip text)] ++ stream_events h _ sil), h.
    split; [reflexivity|]. split.
    + cbn [add_log log]. rewrite Hlog. by rewrite <- !app_assoc.
    + unfold stream_events. rewrite !sent_app, Hsent, sent_chunks. reflexivity.
  - intros data d voice text vs Hd Hp.
    pose proof (handle_client_ok data d voice text h sil vs Hd Hp Hraw Hsil)
      as Hc. cbv zeta in Hc.
    exists (default (get_state_for_audio_prompt model voice) (vs !! voice)).
    eexists _, _, h. split; [exact Hc|].
    rewrite !sent_app, sent_chunks.
    destruct (vs !! voice); reflexivity.
  - intros text voice w fuel w' Hserve.
    destruct (blank_dec text) as [Hb|Hb].
    { unfold serve_tts_buffered, text_to_speech_buffered, bind in Hserve.
      by rewrite validate_blank in Hserve. }
    destruct (decide (voice ∈ VOICES)) as [Hv|Hv].
    2:{ unfold serve_tts_buffered, text_to_speech_buffered, bind in Hserve.
        by rewrite validate_voice in Hserve. }
    destruct (text_to_speech_buffered_ok text voice w Hb Hv)
      as (s & pre & w2 & _ & Hlog & Hpre & E). cbv zeta in E.
    destruct (sent_setup voice pre Hpre) as [Hsent _].
    unfold serve_tts_buffered, bind in Hserve. rewrite E in Hserve.
    destruct (bool_decide _); [discriminate|].
    unfold wave_write in Hserve.
    destruct (sample_rate model <=? 0); [discriminate|].
    destruct (pack_wav_header _ _ _ _ _ _ _ _ _ _ _ _ _) as [hd|] eqn:Eh;
      [|discriminate].
    cbn [mbind option_bind body] in Hserve.
    destruct fuel as [|[|fuel]]; try discriminate.
    injection Hserve as <-.
    exists s. eexists _, hd. split; [|split].
    + cbn [add_log log]. rewrite Hlog, <- !app_assoc. reflexivity.
    + unfold pack_wav_header in Eh.
      repeat match type of Eh with
             | (?m ≫= _) = Some _ =>
                 let E := fresh "E" in
                 destruct m eqn:E; cbn [mbind option_bind] in Eh;
                 [|discriminate]
             end.
      injection Eh as <-.
      repeat match goal with
             | H : pack_I _ = Some _ |- _ =>
                 apply pack_I_inv in H as [_ ->]
             | H : pack_H _ = Some _ |- _ =>
                 apply pack_H_inv in H as [_ ->]
             end.
      reflexivity.
    + assert (Hp : forall t k,
                  sent (EvGenerate t :: EvPull :: replicate k EvPull) = [])
        by (intros t k; induction k; [done|exact IHk]).
      rewrite !sent_app, Hsent, Hp. reflexivity.
Qed.


(** *** The raw server's request and cache *)

Lemma split_nl_nonempty (s : str) : (0 < length (split_nl s))%nat.
Proof.
  induction s as [|c r IH]; cbn [split_nl]; [simpl; lia|].
  destruct (c =? 10)%N; [simpl; lia|].
  destruct (split_nl r); simpl; lia.
Qed.

Lemma parse_request_voice (d : str) :
  fst (parse_request d) = nth 0 (split_nl (strip d)) [].
Proof.
  unfold parse_request. cbn [fst].
  pose proof (split_nl_nonempty (strip d)) as H.
  by rewrite (proj2 (Nat.ltb_lt _ _) H).
Qed.

Lemma count_condition_none (v : str) (l : list event) :
  Forall (λ e, forall v', e <> EvCondition v') l -> count_condition v l = 0%nat.
Proof.
  induction 1 as [|e l He _ IH]; [done|].
  change (e :: l) with ([e] ++ l). rewrite count_condition_app, IH.
  unfold count_condition. rewrite filter_cons, filter_nil.
  by rewrite decide_False by apply He.
Qed.

Lemma send_chunks_no_condition (frames : list frame) :
  Forall (λ e, forall v', e <> EvCondition v') (send_chunks frames).
Proof.
  induction frames as [|f frames IH]; cbn [send_chunks];
    repeat (constructor; [done|]); [constructor | exact IH].
Qed.

(** Whatever becomes of the response, the handler leaves the voice
    of the request cached, having conditioned it when it was not. *)
Lemma handle_client_cache (data : bytes) (d : str)
    (voice_states : gmap str VoiceState) :
  utf8_decode data = Some d ->
  let voice := fst (parse_request d) in
  exists (rest : list event) (ok : bool),
    handle_client data voice_states
    = (<[voice := default (get_state_for_audio_prompt model voice)
                    (voice_states !! voice)]> voice_states,
       (if voice_states !! voice is Some _ then []
        else [EvCondition voice]) ++ rest,
       ok)
    /\ Forall (λ e, forall v', e <> EvCondition v') rest.
Proof.
  intros Hd voice. unfold handle_client. rewrite Hd.
  destruct (parse_request d) as [v text] eqn:Ep. cbn [fst] in voice.
  subst voice.
  assert (Hcache : forall (s : VoiceState) (pre : list event)
                     (vs' : gmap str VoiceState),
    vs' !! v = Some s ->
    exists rest ok,
      match vs' !! v with
      | Some voice_state =>
          match Raw.make_wav_header (sample_rate model) with
          | Some header =>
              match silence_samples (sample_rate model)
                    ≫= (λ n, py_bytes (n * 2)) with
              | Some silence =>
                  (vs', (pre ++ [EvSend header] ++ [EvGenerate text]
                         ++ send_chunks
                              (generate_audio_stream model voice_state text))
                        ++ [EvSend silence], true)
              | None =>
                  (vs', pre ++ [EvSend header] ++ [EvGenerate text]
                        ++ send_chunks
                             (generate_audio_stream model voice_state text),
                   false)
              end
          | None => (vs', pre, false)
          end
      | None => (vs', pre, false)
      end = (vs', pre ++ rest, ok)
      /\ Forall (λ e, forall v', e <> EvCondition v') rest).
  { intros s pre vs' ->.
    destruct (Raw.make_wav_header _) as [h|].
    - destruct (_ ≫= _) as [sil|].
      + eexists _, true. rewrite <- !app_assoc. split; [reflexivity|].
        repeat (constructor; [done|]).
        apply Forall_app. split; [apply send_chunks_no_condition|].
        by repeat constructor.
      + eexists _, false. split; [reflexivity|].
        repeat (constructor; [done|]). apply send_chunks_no_condition.
    - exists [], false. by rewrite app_nil_r. }
  destruct (voice_states !! v) as [s|] eqn:E; cbn [default].
  - rewrite insert_id by done. apply (Hcache s [] voice_states E).
  - apply (Hcache (get_state_for_audio_prompt model v) [EvCondition v]).
    by rewrite lookup_insert_eq.
Qed.

(** The raw server never forgets a voice. *)
Lemma handle_client_keeps (data : bytes) (voice_states : gmap str VoiceState)
    (v : str) (s : VoiceState) :
  voice_states !! v = Some s ->
  (handle_client data voice_states).1.1 !! v = Some s.
Proof.
  intros H. destruct (utf8_decode data) as [d|] eqn:Hd.
  - destruct (handle_client_cache data d voice_states Hd)
      as (rest & ok & -> & _). cbn [fst].
    destruct (decide (fst (parse_request d) = v)) as [->|Hne].
    + by rewrite H, lookup_insert_eq.
    + by rewrite lookup_insert_ne.
  - unfold handle_client. by rewrite Hd.
Qed.

Lemma accept_loop_keeps (conns : list bytes)
    (voice_states : gmap str VoiceState) (ev : list event)
    (v : str) (s : VoiceState) :
  voice_states !! v = Some s ->
  (accept_loop conns voice_states ev).1 !! v = Some s.
Proof.
  revert voice_states ev.
  induction conns as [|data conns IH]; intros vs ev H; [done|].
  cbn [accept_loop].
  pose proof (handle_client_keeps data vs v s H) as Hk.
  destruct (handle_client data vs) as [[vs' ev'] ok]. by apply IH.
Qed.

(** C8, at the request with no voice line. The test of the number of
    lines never fails, since a split always yields a line, so the
    default voice is never chosen: the empty request asks for the
    voice with the empty name, which is conditioned on the engine.
    The default text is chosen whenever there is no second line. *)
Theorem raw_missing_voice_line :
  (forall d : str, (0 < length (split_nl (strip d)))%nat
                   /\ fst (parse_request d) = nth 0 (split_nl (strip d)) [])
  /\ parse_request [] = ([], py "Hello world")
  /\ parse_request [10%N] = ([], py "Hello world")
  /\ fst (parse_request []) <> py "alba"
  /\ (forall d : str, length (split_nl (strip d)) = 1%nat ->
        snd (parse_request d) = py "Hello world")
  /\ (forall voice_states : gmap str VoiceState,
        voice_states !! [] = None ->
        exists rest ok,
          handle_client [] voice_states
          = (<[ [] := get_state_for_audio_prompt model [] ]> voice_states,
             EvCondition [] :: rest, ok)).
Proof.
  split; [|split; [|split; [|split; [|split]]]]; try done.
  - intros d. split; [apply split_nl_nonempty | apply parse_request_voice].
  - intros d H. unfold parse_request. cbn [snd]. by rewrite H.
  - intros vs H.
    destruct (handle_client_cache [] [] vs eq_refl) as (rest & ok & E & _).
    cbv zeta in E. rewrite parse_request_voice in E.
    change (nth 0 (split_nl (strip [])) []) with (@nil N) in E.
    rewrite H in E. cbn [default app] in E. by exists rest, ok.
Qed.

(** C10. The raw server checks no voice: the first line of the
    decoded request, whatever it is, is the voice. When it is not
    cached it is conditioned on the engine, once, and its state is
    stored under that name, where every later connection finds it;
    when it is cached the engine is not asked. The HTTP handlers
    refuse the same voice, when it is not one of the eight, before
    any engine call. *)
Theorem raw_voice_unvalidated (data : bytes) (d : str)
    (voice_states : gmap str VoiceState) :
  utf8_decode data = Some d ->
  let voice := nth 0 (split_nl (strip d)) [] in
  let state := get_state_for_audio_prompt model voice in
  (voice_states !! voice = None ->
   exists (rest : list event) (ok : bool),
     handle_client data voice_states
     = (<[voice := state]> voice_states, EvCondition voice :: rest, ok)
     /\ count_condition voice (EvCondition voice :: rest) = 1%nat
     /\ forall (conns : list bytes) (ev : list event),
          (accept_loop conns (<[voice := state]> voice_states) ev).1 !! voice
          = Some state)
  /\ (forall s : VoiceState, voice_states !! voice = Some s ->
      exists (events : list event) (ok : bool),
        handle_client data voice_states = (voice_states, events, ok)
        /\ count_condition voice events = 0%nat)
  /\ (voice ∉ VOICES ->
      forall (text : str) (w : World), ~ blank text ->
        text_to_speech text voice w
        = (Raise (HTTPException 400 (invalid_voice_detail voice)), w)
        /\ text_to_speech_buffered text voice w
           = (Raise (HTTPException 400 (invalid_voice_detail voice)), w)).
Proof.
  intros Hd voice state.
  destruct (handle_client_cache data d voice_states Hd)
    as (rest & ok & E & Hrest). cbv zeta in E.
  rewrite parse_request_voice in E. fold voice in E.
  split; [|split].
  - intros Hmiss. rewrite Hmiss in E. cbn [default app] in E.
    exists rest, ok. split; [exact E|]. split.
    + change (EvCondition voice :: rest) with ([EvCondition voice] ++ rest).
      rewrite count_condition_app, count_condition_one.
      rewrite decide_True by done. by rewrite count_condition_none.
    + intros conns ev. apply accept_loop_keeps, lookup_insert_eq.
  - intros s Hhit. rewrite Hhit in E. cbn [default app] in E.
    rewrite insert_id in E by done.
    exists rest, ok. split; [exact E|]. by apply count_condition_none.
  - intros Hv text w Hb.
    unfold text_to_speech, text_to_speech_buffered, bind.
    by rewrite validate_voice.
Qed.


(** *** The engine handle under threads *)

Lemma loaded_step (m n i : nat) (p : pool) :
  loaded m n p -> loaded m n (pool_step i p).
Proof.
  intros (Hg & Hn & Ht). unfold pool_step.
  destruct (threads p !! i) as [t|] eqn:E; [|done].
  assert (Hti : t = TCheck \/ t = TReturn \/ t = TDone (Some m))
    by (rewrite Forall_lookup in Ht; exact (Ht i t E)).
  rewrite Hg, Hn.
  destruct Hti as [-> | [-> | ->]]; cbn [thread_step];
    (split; [done|]; split; [done|]; cbn [threads];
     apply Forall_insert; [exact Ht|]; auto).
Qed.

Lemma loaded_run (m n : nat) (sched : list nat) (p : pool) :
  loaded m n p -> loaded m n (run_schedule sched p).
Proof.
  revert p. induction sched as [|i sched IH]; intros p H; [done|].
  cbn [run_schedule foldl]. apply IH, loaded_step, H.
Qed.

Lemma loaded_callers (k m n : nat) : loaded m n (callers k (Some m) n).
Proof.
  split; [done|]. split; [done|]. cbn [callers threads].
  apply Forall_replicate. by left.
Qed.

(** C9, amended. When resolutions do not overlap, a process loads
    the engine at most once, whatever it serves, and every
    resolution returns the same reference, the first one made,
    without failing. Once [_model] is set, as it is by [run_server]
    before the HTTP server starts, any number of callers running in
    any interleaving load nothing and return that reference. One
    caller alone takes the four steps of [get_model]. *)
Theorem get_model_once :
  (forall rs : list request,
      let w := run_requests rs init in
      (count_loads (log w) <= 1)%nat
      /\ fst (get_model w) = Ok 0%nat
      /\ count_loads (log (snd (get_model w))) = 1%nat)
  /\ (forall w : World,
        exists m : nat,
          fst (run_server w) = Ok tt
          /\ _model (snd (run_server w)) = Some m)
  /\ (forall (k m n : nat) (sched : list nat),
        let p := run_schedule sched (callers k (Some m) n) in
        loads p = n /\ shared_model p = Some m
        /\ forall (i : nat) (r : option nat),
             threads p !! i = Some (TDone r) -> r = Some m)
  /\ (forall (g : option nat) (n : nat),
        run_schedule [0; 0; 0; 0]%nat (callers 1 g n)
        = {| shared_model := Some (default n g);
             loads := (if g is Some _ then n else S n);
             threads := [TDone (Some (default n g))] |}).
Proof.
  split; [|split; [|split]].
  - intros rs w.
    pose proof (consistent_run_requests rs init consistent_init) as Hc.
    fold w in Hc. pose proof (preserves_get_model w Hc) as Hc'.
    split; [|split].
    + destruct Hc as [Hl _ _]. rewrite Hl. destruct (_model w); lia.
    + by apply get_model_result.
    + destruct Hc' as [Hl' _ _]. rewrite Hl'.
      unfold get_model.
      destruct (_model w) eqn:E; cbn [snd _model]; [by rewrite E | done].
  - intros w.
    destruct (resolve_spec (py "alba") w)
      as (m & s & pre & w2 & Hgm & Hgv & _ & Hw2 & _).
    exists m. unfold run_server, bind. rewrite Hgm, Hgv. cbn [ret fst snd].
    split; [done|]. by rewrite Hw2.
  - intros k m n sched p.
    destruct (loaded_run m n sched _ (loaded_callers k m n))
      as (Hg & Hn & Ht). fold p in Hg, Hn, Ht.
    split; [done|]. split; [done|]. intros i r Hi.
    rewrite Forall_lookup in Ht.
    destruct (Ht i _ Hi) as [?|[?|[= ->]]]; done.
  - intros [m|] n; reflexivity.
Qed.


(** ** Further properties of the code *)

(** *** The encoder and the two containers *)

Lemma tobytes_app (a b : list Z) : tobytes (a ++ b) = tobytes a ++ tobytes b.
Proof. unfold tobytes. apply flat_map_app. Qed.

Lemma to_int16_app (a b : frame) : to_int16 (a ++ b) = to_int16 a ++ to_int16 b.
Proof. unfold to_int16. apply map_app. Qed.

(** Encoding the concatenated frames, as the buffered handler does,
    gives byte for byte the chunks the streaming paths send one after
    the other. *)
Theorem buffered_payload_is_streamed_chunks (frames : list frame) :
  tobytes (to_int16 (concat frames)) = concat (map pcm_from_chunk frames)
  /\ length (tobytes (to_int16 (concat frames)))
     = (2 * list_sum (map length frames))%nat.
Proof.
  split.
  - induction frames as [|f frames IH]; [reflexivity|].
    cbn [concat map]. rewrite to_int16_app, tobytes_app, IH. reflexivity.
  - rewrite length_tobytes. unfold to_int16. rewrite length_map. f_equal.
    induction frames as [|f frames IH]; [reflexivity|].
    cbn [concat map list_sum]. rewrite length_app, IH. reflexivity.
Qed.

(** Both [make_wav_header] functions return the same bytes or raise
    together, and they raise exactly for a negative sample rate or one
    above 2^31 - 1, where the byte rate overflows its field. *)
Theorem make_wav_header_error (sample_rate : Z) :
  Raw.make_wav_header sample_rate = Daemon.make_wav_header sample_rate 1 16
  /\ (Raw.make_wav_header sample_rate = None
      <-> sample_rate < 0 \/ 2147483647 < sample_rate).
Proof.
  split; [apply raw_header_eq_daemon|].
  rewrite raw_header_eq_daemon.
  pose proof (make_wav_header_defined sample_rate) as [H1 H2].
  split.
  - intros HN.
    destruct (Z.lt_ge_cases sample_rate 0) as [|H0]; [by left|].
    destruct (Z.lt_ge_cases 2147483647 sample_rate) as [|H3]; [by right|].
    destruct (H2 ltac:(lia)) as [h Hh]. congruence.
  - intros Hout.
    destruct (Daemon.make_wav_header sample_rate 1 16) as [h|] eqn:E; [|done].
    assert (0 <= sample_rate <= 2147483647) by (apply H1; by exists h). lia.
Qed.

(** The header of a buffered response and the header of a stream at
    the same rate carry the same format: they agree on bytes 8 to 39,
    and differ only in the two size fields. *)
Theorem headers_agree_on_format (rate : Z) (data : bytes) (hs body : bytes) :
  Daemon.make_wav_header rate 1 16 = Some hs ->
  wave_write 1 2 rate data = Some body ->
  field body 8 32 = field hs 8 32
  /\ field body 0 4 = field hs 0 4
  /\ u32_at hs 40 = 0x7FFFFFFF
  /\ u32_at body 40 = Z.of_nat (length data)
  /\ drop 44 body = data.
Proof.
  intros Hs Hw. unfold wave_write in Hw.
  destruct (rate <=? 0); [discriminate|].
  destruct (pack_wav_header _ _ _ _ _ _ _ _ _ _ _ _ _) as [hb|] eqn:Eb;
    [|discriminate].
  cbn [mbind option_bind] in Hw. injection Hw as <-.
  unfold Daemon.make_wav_header in Hs.
  replace (rate * 1 * 16 / 8) with (1 * rate * 2) in Hs
    by (rewrite Z.mul_1_r, Z.mul_1_l; apply Z.div_unique_exact; lia).
  unfold pack_wav_header in Hs, Eb.
  repeat match type of Eb with
         | (?m ≫= _) = Some _ =>
             let E := fresh "E" in
             destruct m eqn:E; cbn [mbind option_bind] in Eb; [|discriminate]
         end.
  repeat match type of Hs with
         | (?m ≫= _) = Some _ =>
             let E := fresh "E" in
             destruct m eqn:E; cbn [mbind option_bind] in Hs; [|discriminate]
         end.
  injection Eb as <-. injection Hs as <-.
  repeat match goal with
         | H : pack_I _ = Some _ |- _ => apply pack_I_inv in H as [? ->]
         | H : pack_H _ = Some _ |- _ => apply pack_H_inv in H as [? ->]
         end.
  unfold u32_at, field.
  cbn [tag list_byte_of_string app le_bytes length take drop].
  repeat split; try reflexivity.
  change (take 0 data) with (@nil byte).
  match goal with
  | |- le_value ?l = ?v => change l with (le_bytes 4 v)
  end.
  apply le_value_le_bytes_small. simpl. lia.
Qed.

End Engine.

(** ** The properties on the demo engine, and where the claims fail *)

Lemma demo_text_not_blank : ~ blank (py "hi").
Proof. intros [H|H]; vm_compute in H; discriminate. Defined.

Lemma demo_voice_known : py "alba" ∈ VOICES.
Proof. apply (bool_decide_unpack _). vm_compute. exact I. Defined.

Lemma demo_rate_ok : 0 <= sample_rate demo_model <= 2147483647.
Proof. simpl. lia. Defined.

Lemma demo_frame_valid :
  Forall (λ x, f32_valid x = true) [demo_half; demo_loud].
Proof. repeat constructor. Defined.

(** The streaming header at 24 kHz mono. *)
Lemma make_wav_header_layout_witness :
  exists h,
    Daemon.make_wav_header 24000 1 16 = Some h
    /\ (1 = 1 -> Raw.make_wav_header 24000 = Some h)
    /\ streaming_layout h 1 24000.
Proof. apply (make_wav_header_layout 24000 1); lia. Defined.

(** The order of the streams of the demo engine. *)
Lemma streaming_order_witness :
  exists h sil : bytes,
    Daemon.make_wav_header (sample_rate demo_model) 1 16 = Some h
    /\ Raw.make_wav_header (sample_rate demo_model) = Some h
    /\ length h = 44%nat
    /\ silence_block (sample_rate demo_model) = Some sil
    /\ http_stream_contract demo_model demo_cast h sil
    /\ raw_stream_contract demo_model demo_cast h sil.
Proof. exact (streaming_order demo_model demo_cast demo_rate_ok). Defined.

(** At 24 kHz the silence is 4800 samples. *)
Lemma trailing_silence_witness :
  0 <= sample_rate demo_model <= 2147483647
  /\ silence_samples (sample_rate demo_model) = Some 4800
  /\ silence_block (sample_rate demo_model) = Some (replicate (Z.to_nat 9600) x00).
Proof.
  split; [exact demo_rate_ok|].
  pose proof (trailing_silence demo_model demo_cast demo_rate_ok) as H.
  cbv zeta in H. destruct H as (H1 & H2 & _). split; [exact H1 | exact H2].
Defined.

(** A frame of the demo engine, encoded. *)
Lemma pcm_from_chunk_spec_witness :
  Forall (λ x, f32_valid x = true) [demo_half; demo_loud]
  /\ length (pcm_from_chunk demo_cast [demo_half; demo_loud]) = 4%nat
  /\ to_int16 demo_cast [demo_half; demo_loud] = [16383; -32767].
Proof.
  split; [exact demo_frame_valid|].
  split; [|reflexivity].
  exact (proj1 (pcm_from_chunk_spec demo_cast _ demo_frame_valid)).
Defined.

(** The buffered response of the demo engine to a two-letter text. *)
Lemma buffered_response_witness :
  exists (s : str) (pre : list event),
    Forall (setup_event (py "alba")) pre
    /\ log (snd (text_to_speech_buffered demo_model demo_cast
                   (py "hi") (py "alba") init))
       = log (@init str) ++ pre ++ [EvGenerate (strip (py "hi"))]
         ++ replicate (S (length (generate_audio_stream demo_model s
                                    (strip (py "hi"))))) EvPull.
Proof.
  destruct (buffered_response demo_model demo_cast (py "hi") (py "alba") init
              demo_text_not_blank demo_voice_known
              ltac:(simpl; lia)) as (s & pre & H).
  cbv zeta in H. destruct H as (H1 & H2 & _).
  exists s, pre. split; [exact H1 | exact H2].
Defined.

(** The empty request to the raw server of the demo engine. *)
Lemma raw_voice_unvalidated_witness :
  utf8_decode [] = Some []
  /\ exists (rest : list event) (ok : bool),
       handle_client demo_model demo_cast [] ∅
       = ({[ [] := [] ]}, EvCondition [] :: rest, ok).
Proof.
  split; [reflexivity|].
  destruct (raw_voice_unvalidated demo_model demo_cast [] [] ∅ eq_refl)
    as (H & _).
  cbv zeta in H. destruct (H (lookup_empty _)) as (rest & ok & E & _).
  exists rest, ok. exact E.
Defined.

(** C3, as stated, fails on the buffered transport: the response of
    the demo engine to a two-letter text is 52 bytes, the header and
    four samples, and ends with a sample that is not zero, where the
    claim wants 9600 zero bytes. *)
Lemma buffered_has_no_silence :
  exists body : bytes,
    serve_tts_buffered demo_model demo_cast 2 (py "hi") (py "alba") init
    = (Ok tt,
       {| _model := Some 0%nat;
          _voice_states := {[ py "alba" := py "alba" ]};
          log := [EvLoad; EvCondition (py "alba"); EvGenerate (py "hi");
                  EvPull; EvPull; EvPull; EvSend body] |})
    /\ length body = 52%nat
    /\ last body = Some "128"%byte
    /\ silence_block (sample_rate demo_model) = Some (replicate (Z.to_nat 9600) x00)
    /\ ~ exists front, body = front ++ replicate (Z.to_nat 9600) x00.
Proof.
  eexists. split; [vm_compute; reflexivity|].
  split; [reflexivity|]. split; [reflexivity|].
  split; [vm_compute; reflexivity|].
  intros [front H]. apply (f_equal length) in H.
  rewrite length_app, length_replicate in H. cbn in H. lia.
Qed.

(** C9, as stated, fails when first callers race: two callers that
    both test [_model] before either has stored its engine both load,
    and they return different references. *)
Lemma get_model_race :
  run_schedule [0; 1; 0; 0; 0; 1; 1; 1]%nat (callers 2 None 0)
  = {| shared_model := Some 1%nat; loads := 2;
       threads := [TDone (Some 0%nat); TDone (Some 1%nat)] |}.
Proof. reflexivity. Qed.
